(** * email_reader: a shallow embedding of [src/email_reader.py]

    The program opens one [.eml] or [.msg] file, normalises it into
    (headers, body_text, body_html, attachments) and saves attachments
    on request.  Host-language values are modelled in [Py]; the host
    libraries the program calls (the MIME parser, [os.path], the optional
    [.msg] decoder) are fields of a [host] record. *)

From Stdlib Require Import List NArith Arith Lia Bool String Ascii DecimalString.
Import ListNotations.

(* ================================================================== *)
(** ** Host-language values *)
(* ================================================================== *)

Module Py.

(** A [str] is a sequence of Unicode code points, a [bytes] a sequence
    of octets. *)
Definition codepoint := N.
Definition str := list codepoint.
Definition bytes := list Byte.byte.

(** String literals of the source, written as Rocq strings. *)
Definition lit (s : string) : str :=
  map N_of_ascii (list_ascii_of_string s).

Fixpoint str_eqb (a b : str) : bool :=
  match a, b with
  | [], [] => true
  | x :: a', y :: b' => N.eqb x y && str_eqb a' b'
  | _, _ => false
  end.

(** [c in s] for a one-character [c]. *)
Definition char_in (c : codepoint) (s : str) : bool :=
  existsb (N.eqb c) s.

(** Truth value of a sequence: empty is false. *)
Definition truthy {A : Type} (l : list A) : bool :=
  match l with [] => false | _ :: _ => true end.

(** [x or d] where [x] is a sequence. *)
Definition or_else {A : Type} (x d : list A) : list A :=
  if truthy x then x else d.

(** [x or d] where [x] may also be [None]. *)
Definition opt_or {A : Type} (x : option (list A)) (d : list A) : list A :=
  match x with
  | Some l => or_else l d
  | None => d
  end.

(** Truth value of a value that may be [None]. *)
Definition opt_truthy {A : Type} (x : option (list A)) : bool :=
  match x with Some l => truthy l | None => false end.

(** [str.isspace] on one character: the code points CPython's
    [_PyUnicode_IsWhitespace] accepts. *)
Definition isspace (c : codepoint) : bool :=
  ((9 <=? c) && (c <=? 13) || (28 <=? c) && (c <=? 32)
   || (c =? 133) || (c =? 160) || (c =? 5760)
   || (8192 <=? c) && (c <=? 8202)
   || (c =? 8232) || (c =? 8233) || (c =? 8239) || (c =? 8287)
   || (c =? 12288))%N.

Fixpoint lstrip (s : str) : str :=
  match s with
  | [] => []
  | c :: s' => if isspace c then lstrip s' else s
  end.

Definition rstrip (s : str) : str := rev (lstrip (rev s)).

(** [s.strip()] with no argument. *)
Definition strip (s : str) : str := rstrip (lstrip s).

(** [str(n)] for a non-negative integer. *)
Definition str_of_nat (n : nat) : str :=
  lit (NilEmpty.string_of_uint (Nat.to_uint n)).

End Py.
Import Py.

(* ================================================================== *)
(** ** [EmailReaderApp._sanitize_filename] *)
(* ================================================================== *)

(** The nine characters of the literal tested by [not in]: backslash,
    slash, colon, star, question mark, double quote, less-than,
    greater-than, bar. *)
Definition forbidden : str := [92; 47; 58; 42; 63; 34; 60; 62; 124]%N.

(** The join of the characters [c] of [name] with [c not in forbidden]. *)
Definition drop_forbidden (name : str) : str :=
  filter (fun c => negb (char_in c forbidden)) name.

Definition _sanitize_filename (name : str) : str :=
  or_else (strip (drop_forbidden name)) (lit "attachment").

(* ================================================================== *)
(** ** Exceptions *)
(* ================================================================== *)

Inductive exn_class :=
| TypeError | RuntimeError | OSError | AttributeError | KeyError
| LookupError | IndexError | OtherException.

(** An exception object: its class and [str(e)]. *)
Record exn := Exn { exn_kind : exn_class; exn_text : str }.

Inductive result (A : Type) :=
| Ok (a : A)
| Raise (e : exn).
Arguments Ok {A} a.
Arguments Raise {A} e.

Definition rbind {A B : Type} (r : result A) (k : A -> result B) : result B :=
  match r with
  | Ok a => k a
  | Raise e => Raise e
  end.

(** [try: r  except Exception: h] on a computation without side effect. *)
Definition rtry {A : Type} (r : result A) (h : exn -> result A) : result A :=
  match r with
  | Ok a => Ok a
  | Raise e => h e
  end.

Definition is_TypeError (e : exn) : bool :=
  match exn_kind e with TypeError => true | _ => false end.

(** [except Exception] catches every exception of the model. *)
Definition is_Exception (e : exn) : bool := true.

(* ================================================================== *)
(** ** The parsed message ([email.message.EmailMessage]) *)
(* ================================================================== *)

(** What the accessors of one part return: [items()],
    [get_content_disposition()], [get_content_type()], [get_filename()]. *)
Record part_info := {
  items : list (str * str);
  content_disposition : option str;
  ctype_of : str;
  filename_of : option str;
  (** the exception [items()] raises when a header field cannot be
      parsed under [policy.default]; [None] when it returns [items] *)
  items_raise : option exn
}.

(** A part is a leaf, with its transfer-decoded payload and what
    [get_content()] returns or raises, or a container of sub-parts. *)
#[warnings="-register-all"]
Inductive message :=
| Leaf (info : part_info) (decoded : bytes) (content : result str)
| Multipart (info : part_info) (parts : list message).

Definition info_of (m : message) : part_info :=
  match m with
  | Leaf i _ _ => i
  | Multipart i _ => i
  end.

Definition is_multipart (m : message) : bool :=
  match m with
  | Leaf _ _ _ => false
  | Multipart _ _ => true
  end.

(** [msg.items()] *)
Definition msg_items (m : message) : result (list (str * str)) :=
  match items_raise (info_of m) with
  | Some e => Raise e
  | None => Ok (items (info_of m))
  end.

Definition get_content_disposition (m : message) : option str :=
  content_disposition (info_of m).
Definition get_content_type (m : message) : str := ctype_of (info_of m).
Definition get_filename (m : message) : option str := filename_of (info_of m).

(** [get_payload(decode=True)]: [None] on a container. *)
Definition get_payload_decoded (m : message) : option bytes :=
  match m with
  | Leaf _ b _ => Some b
  | Multipart _ _ => None
  end.

(** [get_content()]: the content manager has no handler for a container. *)
Definition get_content (m : message) : result str :=
  match m with
  | Leaf _ _ c => c
  | Multipart i _ => Raise (Exn KeyError (ctype_of i))
  end.

(** [walk()]: the part itself, then its sub-parts, depth first. *)
Fixpoint walk (m : message) : list message :=
  match m with
  | Leaf _ _ _ => [m]
  | Multipart _ ps => m :: flat_map walk ps
  end.

(* ================================================================== *)
(** ** Dictionaries *)
(* ================================================================== *)

(** A [dict] keeps its keys in order of first insertion; assigning to a
    key that is present replaces the value in place. *)
Definition dict (V : Type) := list (str * V).

Fixpoint dict_set {V : Type} (k : str) (v : V) (d : dict V) : dict V :=
  match d with
  | [] => [(k, v)]
  | (k', v') :: d' =>
      if str_eqb k' k then (k', v) :: d' else (k', v') :: dict_set k v d'
  end.

Fixpoint dict_get {V : Type} (k : str) (d : dict V) : option V :=
  match d with
  | [] => None
  | (k', v') :: d' => if str_eqb k' k then Some v' else dict_get k d'
  end.

Definition dict_keys {V : Type} (d : dict V) : list str := map fst d.

(** [d.update(pairs)]: the pairs are assigned in order. *)
Definition fill {V : Type} (l : list (str * V)) (d : dict V) : dict V :=
  fold_left (fun d kv => dict_set (fst kv) (snd kv) d) l d.

(** [dict(pairs)] *)
Definition dict_of_items {V : Type} (l : list (str * V)) : dict V :=
  fill l [].

(* ================================================================== *)
(** ** The [.msg] decoder's objects *)
(* ================================================================== *)

(** An attribute looked up with [getattr(o, name, default)]. *)
Inductive attr (A : Type) :=
| Missing
| PyNone
| Val (a : A).
Arguments Missing {A}.
Arguments PyNone {A}.
Arguments Val {A} a.

(** [getattr(o, name, None) or d] *)
Definition attr_or {A : Type} (x : attr (list A)) (d : list A) : list A :=
  match x with
  | Val l => or_else l d
  | _ => d
  end.

(** A file is a byte string; a path that cannot be opened (a directory,
    a missing parent, no permission) is [NoAccess]. *)
Inductive node :=
| File (content : bytes)
| NoAccess.

(** A file system maps paths to nodes; [error_text] is [str(e)] of the
    OSError that opening a path raises when it cannot be opened. *)
Record filesystem := {
  entry :> str -> option node;
  error_text : str -> str
}.

Definition fs_put (path : str) (n : node) (fs : filesystem) : filesystem :=
  {| entry := fun p => if str_eqb p path then Some n else fs p;
     error_text := error_text fs |}.

(** The exception of a failed [open(path, ...)]. *)
Definition open_error (fs : filesystem) (path : str) : exn :=
  Exn OSError (error_text fs path).

(** The two call forms of an attachment's [save]: with the keyword
    [customPath], and with one positional argument. *)
Record save_method := {
  save_customPath : str -> filesystem -> result unit * filesystem;
  save_positional : str -> filesystem -> result unit * filesystem
}.

(** An attachment object of the decoder.  [h_save] is [None] when
    [hasattr(obj, "save")] is false. *)
Record att_handle := {
  h_longFilename : attr str;
  h_filename : attr str;
  h_save : option save_method;
  h_data : attr bytes;
  h_payload : attr bytes
}.

(** [extract_msg.Message(path)] *)
Record msg_file := {
  m_sender : attr str;
  m_to : attr str;
  m_subject : attr str;
  m_date : attr str;
  m_body : attr str;
  m_htmlBody : attr str;
  m_attachments : attr (list att_handle)
}.

(* ================================================================== *)
(** ** The normalised record *)
(* ================================================================== *)

(** An attachment dictionary.  [payload] and [obj] are [None] when the
    key is absent or bound to [None]. *)
Record attachment := {
  filename : str;
  content_type : option str;
  payload : option bytes;
  obj : option att_handle
}.

(** A header value; [None] is the host's [None]. *)
Definition hval := option str.

Definition parsed := (dict hval * str * str * list attachment)%type.

Inductive filetype := eml | msg.

(** [self.current_meta]; [type] is [None] for the initial empty dict. *)
Record meta := {
  headers : dict hval;
  body_text : str;
  body_html : str;
  attachments : list attachment;
  type : option filetype
}.

Definition empty_meta : meta :=
  {| headers := []; body_text := []; body_html := []; attachments := [];
     type := None |}.

(* ================================================================== *)
(** ** The host: libraries and optional dependencies *)
(* ================================================================== *)

Record host := {
  os_path_join : str -> str -> str;
  os_path_splitext : str -> str * str;
  os_path_basename : str -> str;
  str_lower : str -> str;
  (** [b.decode(errors="replace")] *)
  decode_replace : bytes -> str;
  (** [BytesParser(policy=policy.default).parse] on the file's bytes *)
  BytesParser_parse : bytes -> message;
  (** the module [extract_msg], [None] when the import failed *)
  extract_msg : option (str -> filesystem -> result msg_file);
  (** [BeautifulSoup(html, "html.parser").get_text()], [None] when the
      import failed *)
  BeautifulSoup : option (str -> str)
}.

(* ================================================================== *)
(** ** [parse_eml] *)
(* ================================================================== *)

Definition opt_str_eqb (x : option str) (s : str) : bool :=
  match x with
  | Some x' => str_eqb x' s
  | None => false
  end.

(** The test of line 52: [cdis == "attachment" or filename]. *)
Definition is_attachment_part (part : message) : bool :=
  opt_str_eqb (get_content_disposition part) (lit "attachment")
  || opt_truthy (get_filename part).

(** The dictionary appended at lines 54-58. *)
Definition attachment_of_part (part : message) : attachment :=
  {| filename := opt_or (get_filename part) (lit "attachment");
     content_type := Some (get_content_type part);
     payload := get_payload_decoded part;
     obj := None |}.

(** [part.get_payload(decode=True).decode(errors="replace")] *)
Definition payload_decode_replace (H : host) (part : message) : result str :=
  match get_payload_decoded part with
  | Some b => Ok (decode_replace H b)
  | None => Raise (Exn AttributeError (lit "'NoneType' object has no attribute 'decode'"))
  end.

(** [try: part.get_content()  except Exception: <fallback>] *)
Definition part_text (H : host) (part : message) : result str :=
  rtry (get_content part) (fun _ => payload_decode_replace H part).

(** One iteration of the loop over [msg.walk()], on the three
    accumulators [body_text], [body_html], [attachments]. *)
Definition walk_step (H : host) (acc : str * str * list attachment)
    (part : message) : result (str * str * list attachment) :=
  let '(body_text, body_html, attachments) := acc in
  let ctype := get_content_type part in
  if is_attachment_part part then
    Ok (body_text, body_html, attachments ++ [attachment_of_part part])
  else if str_eqb ctype (lit "text/plain") && negb (truthy body_text) then
    rbind (part_text H part) (fun t => Ok (t, body_html, attachments))
  else if str_eqb ctype (lit "text/html") && negb (truthy body_html) then
    rbind (part_text H part) (fun t => Ok (body_text, t, attachments))
  else Ok acc.

Fixpoint walk_loop (H : host) (parts : list message)
    (acc : str * str * list attachment)
    : result (str * str * list attachment) :=
  match parts with
  | [] => Ok acc
  | part :: rest => rbind (walk_step H acc part) (walk_loop H rest)
  end.

Definition some_values (l : list (str * str)) : list (str * hval) :=
  map (fun kv => (fst kv, Some (snd kv))) l.

(** Lines 40-78, on the parsed message. *)
Definition normalize_eml (H : host) (msg : message) : result parsed :=
  rbind (msg_items msg) (fun its =>
    let headers := dict_of_items (some_values its) in
    if is_multipart msg then
      rbind (walk_loop H (walk msg) ([], [], []))
        (fun '(body_text, body_html, attachments) =>
           Ok (headers, body_text, body_html, attachments))
    else
      let ctype := get_content_type msg in
      if str_eqb ctype (lit "text/plain") then
        rbind (get_content msg) (fun t => Ok (headers, t, [], []))
      else if str_eqb ctype (lit "text/html") then
        rbind (get_content msg) (fun t => Ok (headers, [], t, []))
      else Ok (headers, [], [], [])).

(** [open(path, "rb")] and read *)
Definition read_file (fs : filesystem) (path : str) : result bytes :=
  match fs path with
  | Some (File b) => Ok b
  | _ => Raise (open_error fs path)
  end.

Definition parse_eml (H : host) (fs : filesystem) (path : str) : result parsed :=
  rbind (read_file fs path)
    (fun raw => normalize_eml H (BytesParser_parse H raw)).

(* ================================================================== *)
(** ** [parse_msg] *)
(* ================================================================== *)

(** [getattr(m, name, "")] as stored in the header dictionary. *)
Definition attr_header (x : attr str) : hval :=
  match x with
  | Missing => Some []
  | PyNone => None
  | Val s => Some s
  end.

(** [getattr(att, "longFilename", None) or getattr(att, "filename", None)
    or "attachment"] *)
Definition handle_name (att : att_handle) : str :=
  attr_or (h_longFilename att) (attr_or (h_filename att) (lit "attachment")).

Definition parse_msg (H : host) (fs : filesystem) (path : str) : result parsed :=
  match extract_msg H with
  | None =>
      Raise (Exn RuntimeError
        (lit "extract_msg is not installed. Install with: pip install extract_msg"))
  | Some Message =>
      rbind (Message path fs) (fun m =>
        let headers :=
          [ (lit "From", attr_header (m_sender m));
            (lit "To", attr_header (m_to m));
            (lit "Subject", attr_header (m_subject m));
            (lit "Date", attr_header (m_date m)) ] in
        let body_text := attr_or (m_body m) [] in
        let body_html := attr_or (m_htmlBody m) [] in
        let attachments :=
          map (fun att => {| filename := handle_name att; content_type := None;
                             payload := None; obj := Some att |})
              (attr_or (m_attachments m) []) in
        Ok (headers, body_text, body_html, attachments))
  end.

(* ================================================================== *)
(** ** The application state and its effects *)
(* ================================================================== *)

(** What the user sees: message boxes, and tracebacks on standard error. *)
Inductive event :=
| ShowInfo (title text : str)
| ShowWarning (title text : str)
| ShowError (title text : str)
| PrintExc (e : exn).

Record widgets := {
  header_text : str;
  body_text_widget : str;
  raw_text : str;
  attach_listbox : list str;
  status : str
}.

(** The fields of [self], the file system and the log of events. *)
Record state := {
  current_path : option str;
  current_meta : meta;
  ui : widgets;
  files : filesystem;
  log : list event
}.

Definition with_path (p : option str) (s : state) : state :=
  {| current_path := p; current_meta := current_meta s; ui := ui s;
     files := files s; log := log s |}.
Definition with_meta (m : meta) (s : state) : state :=
  {| current_path := current_path s; current_meta := m; ui := ui s;
     files := files s; log := log s |}.
Definition with_ui (w : widgets) (s : state) : state :=
  {| current_path := current_path s; current_meta := current_meta s; ui := w;
     files := files s; log := log s |}.
Definition with_files (fs : filesystem) (s : state) : state :=
  {| current_path := current_path s; current_meta := current_meta s; ui := ui s;
     files := fs; log := log s |}.
Definition with_log (l : list event) (s : state) : state :=
  {| current_path := current_path s; current_meta := current_meta s; ui := ui s;
     files := files s; log := l |}.

(** A method: it may change the state and may raise; the state reached
    when it raises is kept. *)
Definition M (A : Type) := state -> result A * state.

Definition ret {A : Type} (a : A) : M A := fun s => (Ok a, s).

Definition bind {A B : Type} (c : M A) (k : A -> M B) : M B :=
  fun s =>
    match c s with
    | (Ok a, s') => k a s'
    | (Raise e, s') => (Raise e, s')
    end.

Definition raise {A : Type} (e : exn) : M A := fun s => (Raise e, s).

(** [try: c  except <class> as e: h e] *)
Definition try_except {A : Type} (c : M A) (catches : exn -> bool)
    (h : exn -> M A) : M A :=
  fun s =>
    match c s with
    | (Ok a, s') => (Ok a, s')
    | (Raise e, s') => if catches e then h e s' else (Raise e, s')
    end.

Declare Scope method_scope.
Delimit Scope method_scope with method.
Notation "x <- c ;; k" := (bind c (fun x => k))
  (at level 61, c at next level, right associativity) : method_scope.
Notation "c ;; k" := (bind c (fun _ => k))
  (at level 61, right associativity) : method_scope.
Open Scope method_scope.

Definition emit (e : event) : M unit :=
  fun s => (Ok tt, with_log (log s ++ [e]) s).

(** [with open(path, "wb") as fh: fh.write(data)] *)
Definition open_wb_write (path : str) (data : bytes) : M unit :=
  fun s =>
    match files s path with
    | Some NoAccess => (Raise (open_error (files s) path), s)
    | _ => (Ok tt, with_files (fs_put path (File data) (files s)) s)
    end.

(** A call of one of the decoder's [save] forms. *)
Definition call_save (f : str -> filesystem -> result unit * filesystem)
    (path : str) : M unit :=
  fun s => let (r, fs') := f path (files s) in (r, with_files fs' s).

Definition reading {A : Type} (f : filesystem -> result A) : M A :=
  fun s => (f (files s), s).

Definition nl : str := [10%N].

Fixpoint join (sep : str) (l : list str) : str :=
  match l with
  | [] => []
  | [x] => x
  | x :: rest => x ++ sep ++ join sep rest
  end.

(* ================================================================== *)
(** ** [EmailReaderApp._render_loaded_email] and [open_email] *)
(* ================================================================== *)

(** [str(v)] of a header value. *)
Definition str_of_hval (v : hval) : str :=
  match v with
  | Some t => t
  | None => lit "None"
  end.

Definition listbox_line (a : attachment) : str :=
  filename a ++ lit " (" ++ str_of_nat (List.length (opt_or (payload a) []))
  ++ lit " bytes)".

Definition _render_loaded_email (H : host) : M unit :=
  fun s =>
    let headers := headers (current_meta s) in
    let body_text := body_text (current_meta s) in
    let body_html := body_html (current_meta s) in
    let attachments := attachments (current_meta s) in
    let header_lines :=
      map (fun kv => fst kv ++ lit ": " ++ str_of_hval (snd kv)) headers in
    let display_text :=
      if negb (truthy body_text) && truthy body_html then
        match BeautifulSoup H with
        | Some get_text => get_text body_html
        | None =>
            lit "(No plain-text body; HTML present. Use 'Open HTML in browser' to view.)"
            ++ nl ++ nl ++ body_html
        end
      else body_text in
    let raw :=
      match current_path s with
      | Some p =>
          match read_file (files s) p with
          | Ok b => decode_replace H b
          | Raise _ => lit "(unable to load raw)"
          end
      | None => lit "(unable to load raw)"
      end in
    (Ok tt,
     with_ui {| header_text := join nl header_lines;
                body_text_widget := display_text;
                raw_text := raw;
                attach_listbox := map listbox_line attachments;
                status := status (ui s) |} s).

Definition set_status (text : str) : M unit :=
  fun s =>
    (Ok tt,
     with_ui {| header_text := header_text (ui s);
                body_text_widget := body_text_widget (ui s);
                raw_text := raw_text (ui s);
                attach_listbox := attach_listbox (ui s);
                status := text |} s).

Definition upper_name (t : filetype) : str :=
  match t with
  | eml => lit "EML"
  | msg => lit "MSG"
  end.

(** Lines 203-211, after a successful parse. *)
Definition load_parsed (H : host) (path : str) (r : parsed) (t : filetype)
    : M unit :=
  let '(headers, body_text, body_html, attachments) := r in
  (fun s =>
     (Ok tt,
      with_meta {| headers := headers; body_text := body_text;
                   body_html := body_html; attachments := attachments;
                   type := Some t |} s)) ;;
  _render_loaded_email H ;;
  set_status (lit "Loaded: " ++ os_path_basename H path ++ lit " ("
              ++ upper_name t ++ lit ") -- "
              ++ str_of_nat (List.length attachments) ++ lit " attachments").

Definition missing_dependency_text : str :=
  lit "MSG support requires 'extract_msg' package. Install with:" ++ nl ++ nl
  ++ lit "pip install extract_msg" ++ nl ++ nl
  ++ lit "You can still open EML files.".

(** [path] is the answer of the file dialog, empty when cancelled. *)
Definition open_email (H : host) (path : str) : M unit :=
  if negb (truthy path) then ret tt
  else
    (fun s => (Ok tt, with_path (Some path) s)) ;;
    try_except
      (let ext := str_lower H (snd (os_path_splitext H path)) in
       if str_eqb ext (lit ".eml") then
         r <- reading (fun fs => parse_eml H fs path) ;;
         load_parsed H path r eml
       else if str_eqb ext (lit ".msg") then
         match extract_msg H with
         | None =>
             emit (ShowWarning (lit "Missing dependency") missing_dependency_text)
         | Some _ =>
             r <- reading (fun fs => parse_msg H fs path) ;;
             load_parsed H path r msg
         end
       else
         r <- reading (fun fs => parse_eml H fs path) ;;
         load_parsed H path r eml)
      is_Exception
      (fun e =>
         emit (PrintExc e) ;;
         emit (ShowError (lit "Error")
                 (lit "Failed to open file:" ++ nl ++ exn_text e))).

(* ================================================================== *)
(** ** Saving attachments *)
(* ================================================================== *)

(** [getattr(obj, "data", None) or getattr(obj, "payload", None)],
    followed by the test [if data]: the buffer that will be written. *)
Definition raw_buffer (o : option att_handle) : option bytes :=
  match o with
  | None => None
  | Some h =>
      let data := attr_or (h_data h) (attr_or (h_payload h) []) in
      if truthy data then Some data else None
  end.

Definition has_save (o : option att_handle) : option save_method :=
  match o with
  | None => None
  | Some h => h_save h
  end.

(** The block under [if hasattr(obj, "save")], the same at lines 316-327
    and 372-383. *)
Definition save_with_method (sm : save_method) (o : option att_handle)
    (full : str) : M unit :=
  try_except (call_save (save_customPath sm) full) is_TypeError
    (fun _ =>
       try_except (call_save (save_positional sm) full) is_Exception
         (fun e =>
            match raw_buffer o with
            | Some data => open_wb_write full data
            | None => raise e
            end)).

(** [getattr(obj, "filename", "attachment")]; [None] is the host's [None]. *)
Definition getattr_filename (o : option att_handle) : option str :=
  match o with
  | None => Some (lit "attachment")
  | Some h =>
      match h_filename h with
      | Missing => Some (lit "attachment")
      | PyNone => None
      | Val t => Some t
      end
  end.

(** [self._sanitize_filename(fname)] where [fname] may be [None]. *)
Definition sanitize_value (fname : option str) : M str :=
  match fname with
  | Some t => ret (_sanitize_filename t)
  | None => raise (Exn TypeError (lit "'NoneType' object is not iterable"))
  end.

(** [a.get("filename") or getattr(obj, "filename", "attachment")] *)
Definition msg_fname (a : attachment) : option str :=
  if truthy (filename a) then Some (filename a) else getattr_filename (obj a).

(** [a.get("filename") or f"attachment_{saved}"] *)
Definition eml_fname (a : attachment) (saved : nat) : str :=
  or_else (filename a) (lit "attachment_" ++ str_of_nat saved).

(** The body of the [try] of lines 301-343 for one attachment [a];
    returns the new value of [saved]. *)
Definition save_body (H : host) (ty : option filetype) (dest : str)
    (a : attachment) (saved : nat) : M nat :=
  match ty with
  | Some eml =>
      let fname := eml_fname a saved in
      let payload := opt_or (payload a) [] in
      let safe_name := _sanitize_filename fname in
      let full := os_path_join H dest safe_name in
      open_wb_write full payload ;;
      ret (S saved)
  | Some msg =>
      let obj := obj a in
      let fname := msg_fname a in
      safe_name <- sanitize_value fname ;;
      let full := os_path_join H dest safe_name in
      match has_save obj with
      | Some sm =>
          save_with_method sm obj full ;;
          ret (S saved)
      | None =>
          match raw_buffer obj with
          | Some data =>
              open_wb_write full data ;;
              ret (S saved)
          | None =>
              emit (ShowWarning (lit "Warning")
                      (lit "Could not save attachment: " ++ str_of_hval fname)) ;;
              ret saved
          end
      end
  | None =>
      let fname := filename a in
      let payload := opt_or (payload a) [] in
      open_wb_write (os_path_join H dest fname) payload ;;
      ret (S saved)
  end.

(** One iteration of the loop of line 300: the body under its
    [except Exception]. *)
Definition save_one (H : host) (ty : option filetype) (dest : str)
    (a : attachment) (saved : nat) : M nat :=
  try_except (save_body H ty dest a saved) is_Exception
    (fun e =>
       emit (PrintExc e) ;;
       emit (ShowWarning (lit "Save error")
               (lit "Failed to save one attachment: " ++ exn_text e)) ;;
       ret saved).

Fixpoint save_loop (H : host) (ty : option filetype) (dest : str)
    (l : list attachment) (saved : nat) : M nat :=
  match l with
  | [] => ret saved
  | a :: rest =>
      saved' <- save_one H ty dest a saved ;;
      save_loop H ty dest rest saved'
  end.

(** [dest] is the answer of the directory dialog, empty when cancelled. *)
Definition extract_attachments (H : host) (dest : str) : M unit :=
  fun s =>
    let attachments := attachments (current_meta s) in
    if negb (truthy attachments) then
      emit (ShowInfo (lit "No attachments")
              (lit "No attachments were found in the loaded message.")) s
    else if negb (truthy dest) then ret tt s
    else
      (saved <- save_loop H (type (current_meta s)) dest attachments 0 ;;
       emit (ShowInfo (lit "Done")
               (lit "Saved " ++ str_of_nat saved ++ lit " attachment(s) to:"
                ++ nl ++ dest)) ;;
       set_status (lit "Saved " ++ str_of_nat saved ++ lit " attachment(s) to "
                   ++ dest)) s.

(** The body of the [try] of lines 365-398. *)
Definition save_selected_body (ty : option filetype) (a : attachment)
    (dest_file : str) : M unit :=
  (match ty with
   | Some eml => open_wb_write dest_file (opt_or (payload a) [])
   | Some msg =>
       let obj := obj a in
       match has_save obj with
       | Some sm => save_with_method sm obj dest_file
       | None =>
           match raw_buffer obj with
           | Some data => open_wb_write dest_file data
           | None => raise (Exn RuntimeError (lit "Attachment object not writable"))
           end
       end
   | None => open_wb_write dest_file (opt_or (payload a) [])
   end) ;;
  emit (ShowInfo (lit "Saved") (lit "Attachment saved to: " ++ dest_file)).

(** [sel] is the list box selection, [dest_file] the answer of the save
    dialog, empty when cancelled. *)
Definition save_selected_attachment (sel : list nat) (dest_file : str) : M unit :=
  fun s =>
    match sel with
    | [] =>
        emit (ShowInfo (lit "Select")
                (lit "Select an attachment from the list first (double-click to save).")) s
    | idx :: _ =>
        match nth_error (attachments (current_meta s)) idx with
        | None =>
            emit (ShowError (lit "Index error") (lit "Selected index out of range.")) s
        | Some a =>
            if negb (truthy dest_file) then ret tt s
            else
              try_except (save_selected_body (type (current_meta s)) a dest_file)
                is_Exception
                (fun e =>
                   emit (PrintExc e) ;;
                   emit (ShowError (lit "Error")
                           (lit "Failed to save selected attachment:" ++ nl
                            ++ exn_text e))) s
        end
    end.

(* ================================================================== *)
(** ** The other actions: [__init__], [save_body_as_txt],
       [open_html_in_browser], [on_attachment_doubleclick] *)
(* ================================================================== *)

(** The state [__init__] and [_build_ui] leave: no path, an empty
    [current_meta], empty widgets and the initial status line. *)
Definition initial_state (fs : filesystem) : state :=
  {| current_path := None;
     current_meta := empty_meta;
     ui := {| header_text := []; body_text_widget := []; raw_text := [];
              attach_listbox := []; status := lit "No file loaded." |};
     files := fs;
     log := [] |}.

(** Text files of the host: the bytes a file opened in text mode with
    [encoding="utf-8", errors="replace"] receives for a string, and the
    path [tempfile.mkstemp(suffix=".html", text=True)] creates. *)
Record text_io := {
  write_text : str -> bytes;
  mkstemp_html : filesystem -> result str
}.

(** Lines 275-280: the text [save_body_as_txt] is about to write. *)
Definition body_for_txt (H : host) (m : meta) : str :=
  let body := or_else (body_text m) [] in
  if negb (truthy body) && truthy (body_html m) then
    match BeautifulSoup H with
    | Some get_text => get_text (body_html m)
    | None => lit "(HTML body present; install beautifulsoup4 to convert to text.)"
    end
  else body.

(** [path] is the answer of the save dialog, empty when cancelled.  The
    method has no [try]: a failing [open] propagates. *)
Definition save_body_as_txt (H : host) (io : text_io) (path : str) : M unit :=
  fun s =>
    let body := body_for_txt H (current_meta s) in
    if negb (truthy body) then
      emit (ShowInfo (lit "No body") (lit "No body content available to save.")) s
    else if negb (truthy path) then ret tt s
    else
      (open_wb_write path (write_text io body) ;;
       emit (ShowInfo (lit "Saved") (lit "Body saved to: " ++ path))) s.

(** Returns the address handed to [webbrowser.open], [None] when the
    browser is not opened. *)
Definition open_html_in_browser (io : text_io) : M (option str) :=
  fun s =>
    let body_html := or_else (body_html (current_meta s)) [] in
    if negb (truthy body_html) then
      (emit (ShowInfo (lit "No HTML body")
               (lit "No HTML body was detected for this message.")) ;;
       ret None) s
    else
      (tmp <- reading (mkstemp_html io) ;;
       (fun s0 =>
          (Ok tt,
           with_files (fs_put tmp (File (write_text io body_html)) (files s0)) s0)) ;;
       ret (Some (lit "file://" ++ tmp))) s.

Definition on_attachment_doubleclick (sel : list nat) (dest_file : str)
    : M unit :=
  save_selected_attachment sel dest_file.

(* ================================================================== *)
(** ** Vocabulary of the statements *)
(* ================================================================== *)



Definition not_attachment (p : message) : bool := negb (is_attachment_part p).

Definition str_eq_dec : forall a b : str, {a = b} + {a <> b} :=
  list_eq_dec N.eq_dec.

(** A part the loop passes over when it looks for a body of the given
    type: an attachment, a part of another type, or a part whose text is
    empty. *)
Definition yields_no_text (H : host) (kind : string) (q : message) : Prop :=
  is_attachment_part q = true
  \/ get_content_type q <> lit kind
  \/ part_text H q = Ok [].

(** An attribute of a decoder object holds the non-empty string [t];
    an attribute is blank when it is missing, [None] or empty. *)
Definition holds_text {A : Type} (x : attr (list A)) (t : list A) : Prop :=
  x = Val t /\ t <> [].

Definition blank {A : Type} (x : attr (list A)) : Prop :=
  forall t, x = Val t -> t = [].

(** The extension [open_email] looks at. *)
Definition extension (H : host) (path : str) : str :=
  str_lower H (snd (os_path_splitext H path)).

(** The record [open_email] stores after a successful parse. *)
Definition meta_of (r : parsed) (t : filetype) : meta :=
  let '(headers, body_text, body_html, attachments) := r in
  {| headers := headers; body_text := body_text; body_html := body_html;
     attachments := attachments; type := Some t |}.

(** What [open_email] reports when the parser raised [e]. *)
Definition open_failed (e : exn) : list event :=
  [PrintExc e;
   ShowError (lit "Error") (lit "Failed to open file:" ++ nl ++ exn_text e)].

(** The path the loop of [extract_attachments] writes an [.eml]
    attachment to when [saved] has the value [k]. *)
Definition eml_target (H : host) (dest : str) (a : attachment) (k : nat) : str :=
  os_path_join H dest (_sanitize_filename (eml_fname a k)).

(** What the loop reports when saving one attachment raised [e]. *)
Definition save_failed (e : exn) : list event :=
  [PrintExc e;
   ShowWarning (lit "Save error")
     (lit "Failed to save one attachment: " ++ exn_text e)].


(** The closing message of [extract_attachments]. *)
Definition done_message (n : nat) (dest : str) : event :=
  ShowInfo (lit "Done")
    (lit "Saved " ++ str_of_nat n ++ lit " attachment(s) to:" ++ nl ++ dest).

(** The notice shown in place of the text when only HTML is present and
    it cannot be converted. *)
Definition html_notice : str :=
  lit "(No plain-text body; HTML present. Use 'Open HTML in browser' to view.)".

Definition install_notice : str :=
  lit "(HTML body present; install beautifulsoup4 to convert to text.)".

(** What [save_selected_attachment] reports when saving raised [e]. *)
Definition selected_failed (e : exn) : list event :=
  [PrintExc e;
   ShowError (lit "Error")
     (lit "Failed to save selected attachment:" ++ nl ++ exn_text e)].

Definition saved_message (dest_file : str) : event :=
  ShowInfo (lit "Saved") (lit "Attachment saved to: " ++ dest_file).

(** The state [save_body_as_txt] reaches when it has written [text]. *)
Definition txt_saved (io : text_io) (path text : str) (s : state) : state :=
  with_log (log s ++ [ShowInfo (lit "Saved") (lit "Body saved to: " ++ path)])
    (with_files (fs_put path (File (write_text io text)) (files s)) s).

Definition no_body_message : event :=
  ShowInfo (lit "No body") (lit "No body content available to save.").

Definition no_html_message : event :=
  ShowInfo (lit "No HTML body")
    (lit "No HTML body was detected for this message.").

(** The path the loop of [extract_attachments] hands to a [.msg]
    attachment named [name]. *)
Definition msg_target (H : host) (dest name : str) : str :=
  os_path_join H dest (_sanitize_filename name).




(** What the loop did with each attachment, in order: [true] when
    [saved] was incremented.  Used to state what the batch guarantees. *)
Fixpoint save_trace (H : host) (ty : option filetype) (dest : str)
    (l : list attachment) (saved : nat) (s : state) : list bool :=
  match l with
  | [] => []
  | a :: rest =>
      match save_one H ty dest a saved s with
      | (Ok n, s') => Nat.ltb saved n :: save_trace H ty dest rest n s'
      | (Raise _, _) => []
      end
  end.

Definition is_warning (e : event) : bool :=
  match e with
  | ShowWarning _ _ => true
  | _ => false
  end.

(* ================================================================== *)
(** ** A POSIX host and sample data, to run the model *)
(* ================================================================== *)

Module Posix.

Definition sep : codepoint := 47%N.
Definition extsep : codepoint := 46%N.

Definition ends_with_sep (a : str) : bool :=
  match rev a with
  | c :: _ => N.eqb c sep
  | [] => false
  end.

(** [posixpath.join] of two components. *)
Definition join (a b : str) : str :=
  match b with
  | c :: _ =>
      if N.eqb c sep then b
      else if negb (truthy a) || ends_with_sep a then a ++ b
      else a ++ [sep] ++ b
  | [] => if negb (truthy a) || ends_with_sep a then a else a ++ [sep]
  end.

(** Index after the last occurrence of [c] in [s], 0 when there is none. *)
Fixpoint after_last (c : codepoint) (s : str) : nat :=
  match s with
  | [] => 0
  | x :: s' =>
      match after_last c s' with
      | 0 => if N.eqb x c then 1 else 0
      | S i => S (S i)
      end
  end.

(** [posixpath.splitext] *)
Definition splitext (p : str) : str * str :=
  let name_start := after_last sep p in
  match after_last extsep p with
  | 0 => (p, [])
  | S dot =>
      if Nat.leb name_start dot
         && negb (forallb (N.eqb extsep)
                    (firstn (dot - name_start) (skipn name_start p)))
      then (firstn dot p, skipn dot p)
      else (p, [])
  end.

Definition basename (p : str) : str := skipn (after_last sep p) p.

(** [str.lower] on the letters A to Z. *)
Definition lower (s : str) : str :=
  map (fun c => if (65 <=? c)%N && (c <=? 90)%N then (c + 32)%N else c) s.

(** UTF-8 with [errors="replace"].  A sequence under way is the code
    point bits read so far, the number of continuation octets still
    expected, and the range the next octet must lie in. *)
Definition pending : Type := N * nat * N * N.

Definition replacement : codepoint := 65533%N.

Definition between (lo hi n : N) : bool := (lo <=? n)%N && (n <=? hi)%N.

(** An octet met outside a sequence: what it yields at once and the
    sequence it opens. *)
Definition open_seq (acc : N) (more : nat) (lo hi : N) : pending :=
  (acc, more, lo, hi).

Definition lead (n : N) : str * option pending :=
  if (n <? 128)%N then ([n], None)
  else if between 194 223 n then ([], Some (open_seq (N.land n 31) 1 128 191))
  else if (n =? 224)%N then ([], Some (open_seq 0 2 160 191))
  else if (n =? 237)%N then ([], Some (open_seq 13 2 128 159))
  else if between 225 239 n then ([], Some (open_seq (N.land n 15) 2 128 191))
  else if (n =? 240)%N then ([], Some (open_seq 0 3 144 191))
  else if between 241 243 n then ([], Some (open_seq (N.land n 7) 3 128 191))
  else if (n =? 244)%N then ([], Some (open_seq 4 3 128 143))
  else ([replacement], None).

(** An octet that breaks a sequence yields one U+FFFD for the part read
    and is then read again as a lead; so does the end of the input. *)
Fixpoint decode_from (st : option pending) (b : bytes) : str :=
  match b with
  | [] => match st with Some _ => [replacement] | None => [] end
  | x :: rest =>
      let n := Byte.to_N x in
      match st with
      | Some (acc, more, lo, hi) =>
          if between lo hi n then
            let acc' := (acc * 64 + N.land n 63)%N in
            match more with
            | S (S _ as more') =>
                decode_from (Some (open_seq acc' more' 128 191)) rest
            | _ => acc' :: decode_from None rest
            end
          else
            replacement :: fst (lead n) ++ decode_from (snd (lead n)) rest
      | None => fst (lead n) ++ decode_from (snd (lead n)) rest
      end
  end.

(** [bytes.decode(errors="replace")], the encoding being UTF-8. *)
Definition decode (b : bytes) : str := decode_from None b.

Definition octet (n : N) : Byte.byte :=
  match Byte.of_N n with Some b => b | None => Byte.x3f end.

(** UTF-8 of one code point; a surrogate, which has none, becomes a
    question mark under [errors="replace"]. *)
Definition encode_codepoint (c : codepoint) : bytes :=
  if (c <? 128)%N then [octet c]
  else if (c <? 2048)%N then
    [octet (192 + N.shiftr c 6); octet (128 + N.land c 63)]%N
  else if between 55296 57343 c then [Byte.x3f]
  else if (c <? 65536)%N then
    [octet (224 + N.shiftr c 12); octet (128 + N.land (N.shiftr c 6) 63);
     octet (128 + N.land c 63)]%N
  else
    [octet (240 + N.land (N.shiftr c 18) 7);
     octet (128 + N.land (N.shiftr c 12) 63);
     octet (128 + N.land (N.shiftr c 6) 63); octet (128 + N.land c 63)]%N.

(** What a file opened with [encoding="utf-8", errors="replace"] receives
    for a string; the line separator of the host is the line feed, so
    text mode translates nothing. *)
Definition encode (t : str) : bytes := flat_map encode_codepoint t.

(** A host whose parser yields [m] and whose [.msg] decoder is [dec]. *)
Definition host_of (m : message)
    (dec : option (str -> filesystem -> result msg_file)) : host :=
  {| os_path_join := join;
     os_path_splitext := splitext;
     os_path_basename := basename;
     str_lower := lower;
     decode_replace := decode;
     BytesParser_parse := fun _ => m;
     extract_msg := dec;
     BeautifulSoup := None |}.

End Posix.

Module Sample.

Definition info (hs : list (str * str)) (cdis : option str) (ctype : string)
    (fname : option str) : part_info :=
  {| items := hs; content_disposition := cdis; ctype_of := lit ctype;
     filename_of := fname; items_raise := None |}.

Definition text_part (t : string) : message :=
  Leaf (info [] None "text/plain" None) [] (Ok (lit t)).

Definition html_part (t : string) : message :=
  Leaf (info [] None "text/html" None) [] (Ok (lit t)).

Definition png : bytes := [Byte.x89; Byte.x50; Byte.x4e; Byte.x47].

(** An image shown inline that carries a file name. *)
Definition inline_logo : message :=
  Leaf (info [] (Some (lit "inline")) "image/png" (Some (lit "logo.png")))
       png (Raise (Exn KeyError (lit "image/png"))).

(** A part with the attachment disposition and no file name. *)
Definition nameless : message :=
  Leaf (info [] (Some (lit "attachment")) "application/octet-stream" None)
       [] (Raise (Exn KeyError (lit "application/octet-stream"))).

Definition mixed (hs : list (str * str)) (ps : list message) : message :=
  Multipart (info hs None "multipart/mixed" None) ps.

Definition with_logo : message :=
  mixed [] [text_part "hello"; inline_logo; nameless; html_part "<p>hello</p>"].

(** An empty plain-text part followed by a second plain-text part. *)
Definition empty_then_footer : message :=
  mixed [] [text_part ""; text_part "footer"].

Definition received : list (str * str) :=
  [ (lit "Received", lit "from a"); (lit "Subject", lit "hi");
    (lit "Received", lit "from b") ].

Definition single_plain : message :=
  Leaf (info received None "text/plain" None) [] (Ok (lit "hello")).

Definition single_html : message :=
  Leaf (info [] None "text/html" None) [] (Ok (lit "<p>hello</p>")).

Definition mail : str := lit "/tmp/mail.eml".
Definition outlook : str := lit "/tmp/mail.msg".
Definition out : str := lit "/out".

Definition locked : str := lit "/out/locked".

(** An empty file system.  Its errors read as those of the host: the one
    of a directory for [/out/locked], the one of a missing file for any
    other path. *)
Definition no_files : filesystem :=
  {| entry := fun _ => None;
     error_text := fun p =>
       if str_eqb p locked
       then lit "[Errno 21] Is a directory: '" ++ p ++ lit "'"
       else lit "[Errno 2] No such file or directory: '" ++ p ++ lit "'" |}.

(** A file system holding the two mail files, where [/out/locked] is a
    directory and so cannot be opened. *)
Definition disk : filesystem :=
  fs_put mail (File []) (fs_put outlook (File [])
    (fs_put locked NoAccess no_files)).

Definition widgets0 : widgets :=
  {| header_text := []; body_text_widget := []; raw_text := [];
     attach_listbox := []; status := lit "No file loaded." |}.

Definition state_of (m : meta) : state :=
  {| current_path := None; current_meta := m; ui := widgets0; files := disk;
     log := [] |}.

Definition eml_att (name : string) (p : option bytes) : attachment :=
  {| filename := lit name; content_type := Some (lit "application/octet-stream");
     payload := p; obj := None |}.

Definition eml_meta (l : list attachment) : meta :=
  {| headers := []; body_text := []; body_html := []; attachments := l;
     type := Some eml |}.

Definition msg_meta (l : list attachment) : meta :=
  {| headers := []; body_text := []; body_html := []; attachments := l;
     type := Some msg |}.

Definition writes (b : bytes) (p : str) (fs : filesystem)
    : result unit * filesystem :=
  (Ok tt, fs_put p (File b) fs).

Definition refuses (k : exn_class) (p : str) (fs : filesystem)
    : result unit * filesystem :=
  (Raise (Exn k (lit "refused")), fs).

Definition handle (sm : option save_method) (data : attr bytes) : att_handle :=
  {| h_longFilename := Missing; h_filename := Missing; h_save := sm;
     h_data := data; h_payload := Missing |}.

(** A handle whose [save] accepts the keyword form. *)
Definition keyword_saver : att_handle :=
  handle (Some {| save_customPath := writes png;
                  save_positional := refuses OSError |}) Missing.



(** A handle with neither [save] nor bytes. *)
Definition opaque : att_handle := handle None Missing.

Definition msg_att (name : string) (h : att_handle) : attachment :=
  {| filename := lit name; content_type := None; payload := None;
     obj := Some h |}.

End Sample.

Module More.

(** A plain-text part whose content cannot be decoded by [get_content]. *)
Definition undecodable : message :=
  Leaf (Sample.info [] None "text/plain" None) [Byte.x68; Byte.x69]
       (Raise (Exn LookupError (lit "unknown encoding: x-unknown"))).

Definition with_undecodable : message :=
  Sample.mixed [] [Sample.text_part ""; undecodable; Sample.html_part "";
                   Sample.html_part "<b>hi</b>"; Sample.text_part "late"].

(** A single plain-text part in a charset the host has no codec for. *)
Definition unknown_charset : message :=
  Leaf (Sample.info [] None "text/plain" None)
       [Byte.x68; Byte.x65; Byte.x6c; Byte.x6c; Byte.x6f]
       (Raise (Exn LookupError (lit "unknown encoding: windows-874"))).


(** A forwarded message: a container that carries a file name. *)
Definition forwarded : message :=
  Multipart (Sample.info [] (Some (lit "attachment")) "message/rfc822"
               (Some (lit "fwd.eml")))
            [Sample.mixed [] [Sample.text_part "inner"; Sample.inline_logo]].

Definition with_forwarded : message :=
  Sample.mixed [] [Sample.text_part "outer"; forwarded].

(** A message that is a single PDF sent as an attachment. *)
Definition lone_pdf : message :=
  Leaf (Sample.info [(lit "Subject", lit "scan")] (Some (lit "attachment"))
          "application/pdf" (Some (lit "scan.pdf")))
       Sample.png (Raise (Exn KeyError (lit "application/pdf"))).

Definition distinct_headers : list (str * str) :=
  [ (lit "From", lit "a@x"); (lit "To", lit "b@y"); (lit "Subject", lit "hi") ].

Definition with_headers : message :=
  Leaf (Sample.info distinct_headers None "text/plain" None) [] (Ok (lit "hello")).

Definition named (long short : attr str) : att_handle :=
  {| h_longFilename := long; h_filename := short; h_save := None;
     h_data := Val Sample.png; h_payload := Missing |}.

Definition outlook_file : msg_file :=
  {| m_sender := Val (lit "a@x"); m_to := PyNone; m_subject := Missing;
     m_date := Val (lit "today"); m_body := PyNone;
     m_htmlBody := Val (lit "<p>hi</p>");
     m_attachments :=
       Val [named (Val (lit "long name.txt")) (Val (lit "LONGNA~1.TXT"));
            named PyNone (Val (lit "short.txt"));
            named (Val []) Missing] |}.

Definition decoder (p : str) (fs : filesystem) : result msg_file :=
  match fs p with
  | Some (File _) => Ok outlook_file
  | _ => Raise (open_error fs p)
  end.

Definition io : text_io :=
  {| write_text := Posix.encode;
     mkstemp_html := fun _ => Ok (lit "/tmp/tmp1.html") |}.

(** The sample disk with one more mail file, without extension. *)
Definition disk2 : filesystem :=
  fs_put (lit "/tmp/mail") (File []) Sample.disk.

Definition state2 (m : meta) : state := with_files disk2 (Sample.state_of m).

Definition loaded (bt bh : string) (l : list attachment) (t : filetype) : meta :=
  {| headers := []; body_text := lit bt; body_html := lit bh; attachments := l;
     type := Some t |}.

End More.

(* ================================================================== *)
(** ** Facts about strings *)
(* ================================================================== *)

Lemma char_in_In (c : codepoint) (s : str) : char_in c s = true <-> In c s.
Proof.
  unfold char_in. rewrite existsb_exists. split.
  - intros [x [Hx He]]. apply N.eqb_eq in He. now subst.
  - intros Hc. exists c. split; [assumption | apply N.eqb_refl].
Qed.

Lemma lstrip_suffix (s : str) : exists pre, s = pre ++ lstrip s.
Proof.
  induction s as [|c s IH]; simpl.
  - now exists [].
  - destruct (isspace c).
    + destruct IH as [pre Hpre]. exists (c :: pre). simpl. now f_equal.
    + now exists [].
Qed.

Lemma lstrip_incl (s : str) (c : codepoint) : In c (lstrip s) -> In c s.
Proof.
  destruct (lstrip_suffix s) as [pre Hpre]. intros Hc.
  rewrite Hpre. apply in_or_app. now right.
Qed.

Lemma rstrip_incl (s : str) (c : codepoint) : In c (rstrip s) -> In c s.
Proof.
  unfold rstrip. intros Hc. apply in_rev in Hc.
  apply lstrip_incl in Hc. now apply in_rev.
Qed.

Lemma strip_incl (s : str) (c : codepoint) : In c (strip s) -> In c s.
Proof.
  unfold strip. intros Hc. now apply lstrip_incl, rstrip_incl.
Qed.

Lemma lstrip_head (s : str) :
  match lstrip s with [] => True | c :: _ => isspace c = false end.
Proof.
  induction s as [|c s IH]; simpl; [exact I|].
  destruct (isspace c) eqn:Hc; [exact IH | exact Hc].
Qed.

Lemma lstrip_fixed (s : str) :
  match s with [] => True | c :: _ => isspace c = false end -> lstrip s = s.
Proof.
  destruct s as [|c s]; simpl; [reflexivity|]. now intros ->.
Qed.

Lemma lstrip_idem (s : str) : lstrip (lstrip s) = lstrip s.
Proof. apply lstrip_fixed, lstrip_head. Qed.

Lemma rstrip_idem (s : str) : rstrip (rstrip s) = rstrip s.
Proof.
  unfold rstrip. rewrite rev_involutive, lstrip_idem. reflexivity.
Qed.

(** Stripping on the right does not change the first character of what
    is left. *)
Lemma lstrip_app_keep (s t : str) :
  lstrip s <> [] -> lstrip (s ++ t) = lstrip s ++ t.
Proof.
  induction s as [|c s IH]; simpl; [congruence|].
  destruct (isspace c); [exact IH | reflexivity].
Qed.

Lemma rstrip_head (s : str) :
  match s with [] => True | c :: _ => isspace c = false end ->
  match rstrip s with [] => True | c :: _ => isspace c = false end.
Proof.
  destruct s as [|c s]; [intros _; exact I|]. intros Hc.
  unfold rstrip.
  destruct (lstrip_suffix (rev (c :: s))) as [pre Hpre].
  remember (lstrip (rev (c :: s))) as r eqn:Hr.
  assert (Hrev : c :: s = rev r ++ rev pre).
  { rewrite <- rev_app_distr, <- Hpre, rev_involutive. reflexivity. }
  destruct (rev r) as [|d r'] eqn:Hd; [exact I|].
  simpl in Hrev. injection Hrev as -> _. exact Hc.
Qed.

Lemma strip_head (s : str) :
  match strip s with [] => True | c :: _ => isspace c = false end.
Proof. unfold strip. apply rstrip_head, lstrip_head. Qed.

Lemma strip_last (s : str) :
  match rev (strip s) with [] => True | c :: _ => isspace c = false end.
Proof.
  unfold strip, rstrip. rewrite rev_involutive. apply lstrip_head.
Qed.

Lemma strip_idem (s : str) : strip (strip s) = strip s.
Proof.
  unfold strip at 1. rewrite (lstrip_fixed (strip s)) by apply strip_head.
  unfold strip. apply rstrip_idem.
Qed.

Lemma drop_forbidden_clean (name : str) (c : codepoint) :
  In c forbidden -> ~ In c (drop_forbidden name).
Proof.
  unfold drop_forbidden. intros Hf Hc. apply filter_In in Hc.
  destruct Hc as [_ Hn]. apply char_in_In in Hf. rewrite Hf in Hn. discriminate.
Qed.

Lemma drop_forbidden_fixed (s : str) :
  (forall c, In c forbidden -> ~ In c s) -> drop_forbidden s = s.
Proof.
  unfold drop_forbidden. intros Hs.
  induction s as [|c s IH]; cbn [filter]; [reflexivity|].
  destruct (char_in c forbidden) eqn:Hc; cbn [negb].
  - exfalso. apply char_in_In in Hc. apply (Hs c Hc). now left.
  - f_equal. apply IH. intros d Hd Hin. apply (Hs d Hd). now right.
Qed.

Lemma sanitize_cases (name : str) :
  (strip (drop_forbidden name) = [] /\ _sanitize_filename name = lit "attachment")
  \/ (strip (drop_forbidden name) <> [] /\
      _sanitize_filename name = strip (drop_forbidden name)).
Proof.
  unfold _sanitize_filename, or_else.
  destruct (strip (drop_forbidden name)) as [|c r]; simpl.
  - left. split; reflexivity.
  - right. split; [discriminate | reflexivity].
Qed.

Lemma sanitize_clean (name : str) (c : codepoint) :
  In c forbidden -> ~ In c (_sanitize_filename name).
Proof.
  intros Hf. destruct (sanitize_cases name) as [[_ ->] | [_ ->]].
  - revert c Hf. apply Forall_forall. unfold forbidden.
    repeat constructor; vm_compute; intuition discriminate.
  - intros Hc. apply strip_incl in Hc. revert Hc. now apply drop_forbidden_clean.
Qed.

Lemma sanitize_nonempty (name : str) : _sanitize_filename name <> [].
Proof.
  destruct (sanitize_cases name) as [[_ ->] | [Hne ->]];
    [discriminate | exact Hne].
Qed.

Lemma sanitize_stripped (name : str) :
  strip (_sanitize_filename name) = _sanitize_filename name.
Proof.
  destruct (sanitize_cases name) as [[_ ->] | [_ ->]];
    [reflexivity | apply strip_idem].
Qed.

Lemma sanitize_fixed (s : str) :
  s <> [] -> strip s = s -> (forall c, In c forbidden -> ~ In c s) ->
  _sanitize_filename s = s.
Proof.
  intros Hne Hs Hc. unfold _sanitize_filename.
  rewrite (drop_forbidden_fixed s Hc), Hs. unfold or_else.
  destruct s; [congruence | reflexivity].
Qed.

(* ================================================================== *)
(** ** Filename sanitization *)
(* ================================================================== *)

(** C5.  For every name, the sanitized name contains no occurrence of
    any of the nine characters backslash, slash, colon, star, question
    mark, double quote, less-than, greater-than and bar; the characters
    kept are characters of the name that are not among the nine; and
    when nothing is left the result is the word attachment.  The name
    of the specification's example, the letters a to j separated by the
    nine characters (with one or two backslashes), gives abcdefghij, and
    a name made only of the nine characters gives attachment. *)
Theorem sanitize_filename_strips_forbidden :
  forall name : str,
    (forall c, In c forbidden -> ~ In c (_sanitize_filename name))
    /\ (forall c, In c (drop_forbidden name) <-> In c name /\ ~ In c forbidden)
    /\ (_sanitize_filename name = lit "attachment"
        \/ _sanitize_filename name = strip (drop_forbidden name))
    /\ (drop_forbidden name = [] -> _sanitize_filename name = lit "attachment")
    /\ ((forall c, In c name -> In c forbidden) ->
        _sanitize_filename name = lit "attachment")
    /\ _sanitize_filename (lit "a/b\c:d*e?f" ++ [34%N] ++ lit "g<h>i|j")
       = lit "abcdefghij"
    /\ _sanitize_filename (lit "a/b\\c:d*e?f" ++ [34%N] ++ lit "g<h>i|j")
       = lit "abcdefghij"
    /\ _sanitize_filename forbidden = lit "attachment".
Proof.
  intros name.
  assert (Hkeep : forall c, In c (drop_forbidden name) <-> In c name /\ ~ In c forbidden).
  { intros c. unfold drop_forbidden. rewrite filter_In. split.
    - intros [Hc Hn]. split; [exact Hc|]. intros Hf.
      apply char_in_In in Hf. rewrite Hf in Hn. discriminate.
    - intros [Hc Hn]. split; [exact Hc|].
      destruct (char_in c forbidden) eqn:E; [|reflexivity].
      apply char_in_In in E. contradiction. }
  split; [intros c; apply sanitize_clean|].
  split; [exact Hkeep|].
  split.
  { destruct (sanitize_cases name) as [[_ ->] | [_ ->]]; [now left | now right]. }
  split.
  { intros E. unfold _sanitize_filename. rewrite E. reflexivity. }
  split.
  { intros Hall. unfold _sanitize_filename.
    destruct (drop_forbidden name) as [|c r]; [reflexivity|].
    exfalso. destruct (proj1 (Hkeep c) (or_introl eq_refl)) as [Hc Hn].
    apply Hn, Hall, Hc. }
  split; [reflexivity|]. split; reflexivity.
Qed.

(** C10.  Sanitizing twice gives the same name as sanitizing once, and a
    sanitized name is never empty, contains none of the nine forbidden
    characters, and neither starts nor ends with a whitespace character. *)
Theorem sanitize_filename_idempotent :
  forall name : str,
    _sanitize_filename (_sanitize_filename name) = _sanitize_filename name
    /\ _sanitize_filename name <> []
    /\ (forall c, In c forbidden -> ~ In c (_sanitize_filename name))
    /\ (forall c rest, _sanitize_filename name = c :: rest -> isspace c = false)
    /\ (forall c front, _sanitize_filename name = front ++ [c] -> isspace c = false)
    /\ strip (_sanitize_filename name) = _sanitize_filename name.
Proof.
  intros name.
  split.
  { apply sanitize_fixed.
    - apply sanitize_nonempty.
    - apply sanitize_stripped.
    - intros c. apply sanitize_clean. }
  split; [apply sanitize_nonempty|].
  split; [intros c; apply sanitize_clean|].
  split.
  { intros c rest E. pose proof (strip_head (_sanitize_filename name)) as Hh.
    rewrite sanitize_stripped, E in Hh. exact Hh. }
  split.
  { intros c front E. pose proof (strip_last (_sanitize_filename name)) as Hl.
    rewrite sanitize_stripped, E, rev_app_distr in Hl. exact Hl. }
  apply sanitize_stripped.
Qed.

(* ================================================================== *)
(** ** Facts about dictionaries *)
(* ================================================================== *)

Lemma str_eqb_eq (a b : str) : str_eqb a b = true <-> a = b.
Proof.
  revert b. induction a as [|x a IH]; intros [|y b]; simpl;
    try (split; [discriminate | discriminate]); [tauto|].
  rewrite andb_true_iff, N.eqb_eq, IH. split.
  - intros [-> ->]. reflexivity.
  - intros E. injection E as -> ->. split; reflexivity.
Qed.

Lemma str_eqb_refl (a : str) : str_eqb a a = true.
Proof. now apply str_eqb_eq. Qed.

Lemma str_eqb_neq (a b : str) : str_eqb a b = false <-> a <> b.
Proof.
  rewrite <- str_eqb_eq. destruct (str_eqb a b); split; congruence.
Qed.

Section DictFacts.
Context {V : Type}.
Implicit Types (d : dict V) (k : str) (v : V).

Lemma dict_get_set_same k v d : dict_get k (dict_set k v d) = Some v.
Proof.
  induction d as [|[k' v'] d IH]; simpl.
  - now rewrite str_eqb_refl.
  - destruct (str_eqb k' k) eqn:E; simpl; rewrite E; [reflexivity | exact IH].
Qed.

Lemma dict_get_set_other k k' v d :
  k <> k' -> dict_get k' (dict_set k v d) = dict_get k' d.
Proof.
  intros Hne. induction d as [|[k0 v0] d IH]; simpl.
  - apply str_eqb_neq in Hne. now rewrite Hne.
  - destruct (str_eqb k0 k) eqn:E; simpl.
    + apply str_eqb_eq in E. subst k0.
      apply str_eqb_neq in Hne. now rewrite Hne.
    + destruct (str_eqb k0 k'); [reflexivity | exact IH].
Qed.

Lemma dict_keys_set k v d :
  dict_keys (dict_set k v d)
  = if existsb (fun k' => str_eqb k' k) (dict_keys d)
    then dict_keys d else dict_keys d ++ [k].
Proof.
  unfold dict_keys. induction d as [|[k0 v0] d IH]; simpl; [reflexivity|].
  destruct (str_eqb k0 k) eqn:E; simpl; [reflexivity|].
  rewrite IH. now destruct (existsb _ (map fst d)).
Qed.

Lemma existsb_key k (l : list str) :
  existsb (fun k' => str_eqb k' k) l = true <-> In k l.
Proof.
  rewrite existsb_exists. split.
  - intros [x [Hx E]]. apply str_eqb_eq in E. now subst.
  - intros Hk. exists k. split; [exact Hk | apply str_eqb_refl].
Qed.

Lemma dict_set_NoDup k v d :
  NoDup (dict_keys d) -> NoDup (dict_keys (dict_set k v d)).
Proof.
  intros Hd. rewrite dict_keys_set.
  destruct (existsb _ (dict_keys d)) eqn:E; [exact Hd|].
  apply NoDup_app; [exact Hd | repeat constructor; auto |].
  intros x Hx [<- | []].
  apply existsb_key in Hx. congruence.
Qed.

Lemma dict_set_key_in k v d : In k (dict_keys (dict_set k v d)).
Proof.
  rewrite dict_keys_set.
  destruct (existsb _ (dict_keys d)) eqn:E.
  - now apply existsb_key.
  - apply in_or_app. right. now left.
Qed.

Lemma dict_set_key_mono k k' v d :
  In k' (dict_keys d) -> In k' (dict_keys (dict_set k v d)).
Proof.
  intros Hk. rewrite dict_keys_set.
  destruct (existsb _ (dict_keys d)); [exact Hk|].
  apply in_or_app. now left.
Qed.

Lemma fill_NoDup l d : NoDup (dict_keys d) -> NoDup (dict_keys (fill l d)).
Proof.
  revert d. induction l as [|[k v] l IH]; intros d Hd; simpl; [exact Hd|].
  apply IH, dict_set_NoDup, Hd.
Qed.

Lemma fill_key_mono l d k :
  In k (dict_keys d) -> In k (dict_keys (fill l d)).
Proof.
  revert d. induction l as [|[k0 v0] l IH]; intros d Hd; simpl; [exact Hd|].
  apply IH, dict_set_key_mono, Hd.
Qed.

Lemma fill_get_absent l d k :
  ~ In k (map fst l) -> dict_get k (fill l d) = dict_get k d.
Proof.
  revert d. induction l as [|[k0 v0] l IH]; intros d Hk; simpl; [reflexivity|].
  simpl in Hk. rewrite IH by tauto. apply dict_get_set_other. tauto.
Qed.

(** The value bound to a key is the one of its last occurrence. *)
Lemma fill_last_wins pre k v post d :
  ~ In k (map fst post) ->
  dict_get k (fill (pre ++ (k, v) :: post) d) = Some v
  /\ In k (dict_keys (fill (pre ++ (k, v) :: post) d)).
Proof.
  intros Hk. unfold fill. rewrite fold_left_app. simpl.
  fold (fill pre d). fold (fill post (dict_set k v (fill pre d))). split.
  - rewrite fill_get_absent by exact Hk. apply dict_get_set_same.
  - apply fill_key_mono, dict_set_key_in.
Qed.

End DictFacts.

Lemma count_occ_NoDup_In (l : list str) (k : str) :
  NoDup l -> In k l -> count_occ str_eq_dec l k = 1.
Proof.
  intros Hn Hk. pose proof (proj1 (NoDup_count_occ str_eq_dec l) Hn k) as Hle.
  apply (count_occ_In str_eq_dec) in Hk. lia.
Qed.

(* ================================================================== *)
(** ** Facts about the loop over the parts *)
(* ================================================================== *)

Section WalkFacts.
Variable H : host.

Lemma walk_loop_attachments parts :
  forall bt bh atts bt' bh' atts',
    walk_loop H parts (bt, bh, atts) = Ok (bt', bh', atts') ->
    atts' = atts ++ map attachment_of_part (filter is_attachment_part parts).
Proof.
  induction parts as [|p parts IH]; intros bt bh atts bt' bh' atts' E; simpl in E.
  - injection E as _ _ <-. now rewrite app_nil_r.
  - cbn [filter]. unfold walk_step in E.
    destruct (is_attachment_part p).
    + simpl in E. apply IH in E. rewrite E, <- app_assoc. reflexivity.
    + destruct (str_eqb _ _ && negb (truthy bt)).
      { destruct (part_text H p) as [t|e]; simpl in E; [|discriminate].
        now apply IH in E. }
      destruct (str_eqb _ _ && negb (truthy bh)).
      { destruct (part_text H p) as [t|e]; simpl in E; [|discriminate].
        now apply IH in E. }
      simpl in E. now apply IH in E.
Qed.


(** Once a body is non-empty, no later part changes it. *)
Lemma walk_loop_keeps_text parts :
  forall bt bh atts bt' bh' atts',
    walk_loop H parts (bt, bh, atts) = Ok (bt', bh', atts') ->
    bt <> [] -> bt' = bt.
Proof.
  induction parts as [|p parts IH]; intros bt bh atts bt' bh' atts' E Hne;
    simpl in E.
  - now injection E as <- _ _.
  - unfold walk_step in E. destruct (is_attachment_part p).
    + simpl in E. eapply IH; eauto.
    + assert (Ht : truthy bt = true) by (destruct bt; [congruence | reflexivity]).
      rewrite Ht, andb_false_r in E.
      destruct (str_eqb _ _ && negb (truthy bh)).
      { destruct (part_text H p) as [t|e]; simpl in E; [|discriminate].
        eapply IH; eauto. }
      simpl in E. eapply IH; eauto.
Qed.




(** What does hold of the plain-text body: it is the text of the first
    plain-text part, among those that are not attachments, whose text is
    not empty. *)
Lemma first_nonempty_plain_part_wins pre p post :
  forall t bh atts bt' bh' atts',
    (forall q, In q pre ->
       is_attachment_part q = true
       \/ str_eqb (get_content_type q) (lit "text/plain") = false
       \/ part_text H q = Ok []) ->
    is_attachment_part p = false ->
    get_content_type p = lit "text/plain" ->
    part_text H p = Ok t -> t <> [] ->
    walk_loop H (pre ++ p :: post) ([], bh, atts) = Ok (bt', bh', atts') ->
    bt' = t.
Proof.
  induction pre as [|q pre IH]; intros t bh atts bt' bh' atts' Hpre Hp Hct Ht Hne E.
  - cbn [app walk_loop] in E. unfold walk_step in E.
    rewrite Hp, Hct, Ht in E. cbn in E.
    eapply walk_loop_keeps_text; eauto.
  - cbn [app walk_loop] in E. unfold walk_step in E.
    assert (Hpre' : forall q0, In q0 pre ->
              is_attachment_part q0 = true
              \/ str_eqb (get_content_type q0) (lit "text/plain") = false
              \/ part_text H q0 = Ok []) by (intros q0 Hq0; apply Hpre; now right).
    destruct (is_attachment_part q) eqn:Ea.
    + cbn in E. eapply IH; eauto.
    + destruct (str_eqb (get_content_type q) (lit "text/plain")) eqn:Eq.
      * destruct (Hpre q (or_introl eq_refl)) as [F | [F | Hempty]];
          try congruence.
        cbn in E. rewrite Hempty in E. cbn in E. eapply IH; eauto.
      * cbn [andb] in E.
        destruct (str_eqb _ _ && negb (truthy bh)).
        { destruct (part_text H q) as [t0|e]; cbn in E; [|discriminate].
          eapply IH; eauto. }
        cbn in E. eapply IH; eauto.
Qed.

End WalkFacts.


Lemma parse_eml_read (H : host) (fs : filesystem) (path : str) (raw : bytes) :
  read_file fs path = Ok raw ->
  parse_eml H fs path = normalize_eml H (BytesParser_parse H raw).
Proof. unfold parse_eml. now intros ->. Qed.

Lemma normalize_eml_multipart (H : host) (m : message) hs bt bh atts :
  is_multipart m = true ->
  normalize_eml H m = Ok (hs, bt, bh, atts) ->
  hs = dict_of_items (some_values (items (info_of m)))
  /\ walk_loop H (walk m) ([], [], []) = Ok (bt, bh, atts).
Proof.
  unfold normalize_eml, msg_items. intros ->.
  destruct (items_raise (info_of m)); [discriminate|]. cbn [rbind].
  destruct (walk_loop H (walk m) ([], [], [])) as [[[bt0 bh0] atts0]|e];
    simpl; [|discriminate].
  intros E. injection E as <- <- <- <-. split; reflexivity.
Qed.

(* ================================================================== *)
(** ** [parse_eml]: attachments and bodies *)
(* ================================================================== *)




(** C2 (the code against the claim).  A multipart message whose first
    plain-text part decodes to the empty string and whose second
    plain-text part is the word footer: the body is taken from the
    second part, not from the first. *)
Theorem empty_first_plain_part_is_replaced :
  In (Sample.text_part "") (walk Sample.empty_then_footer)
  /\ filter (fun p => str_eqb (get_content_type p) (lit "text/plain"))
       (filter not_attachment (walk Sample.empty_then_footer))
     = [Sample.text_part ""; Sample.text_part "footer"]
  /\ parse_eml (Posix.host_of Sample.empty_then_footer None)
       Sample.disk Sample.mail
     = Ok ([], lit "footer", [], []).
Proof.
  split; [right; left; reflexivity|]. split; reflexivity.
Qed.

(** What does hold of a message that is not multipart: when its header
    fields parse and its content decodes, the decoded content is
    [body_text] for text/plain and [body_html] for text/html, the other
    body is empty and there is no attachment. *)
Lemma parse_eml_single_part :
  forall (H : host) (fs : filesystem) (path : str) (raw : bytes) (t : str),
    read_file fs path = Ok raw ->
    is_multipart (BytesParser_parse H raw) = false ->
    items_raise (info_of (BytesParser_parse H raw)) = None ->
    get_content (BytesParser_parse H raw) = Ok t ->
    let m := BytesParser_parse H raw in
    let hs := dict_of_items (some_values (items (info_of m))) in
    (get_content_type m = lit "text/plain" ->
     parse_eml H fs path = Ok (hs, t, [], []))
    /\ (get_content_type m = lit "text/html" ->
        parse_eml H fs path = Ok (hs, [], t, [])).
Proof.
  intros H fs path raw t Hread Hsingle Hitems Hcontent m hs.
  rewrite (parse_eml_read H fs path raw Hread).
  fold m in Hsingle, Hitems, Hcontent |- *.
  unfold normalize_eml, msg_items. rewrite Hitems, Hsingle, Hcontent. fold hs.
  split; intros ->; reflexivity.
Qed.

(** C7 (the code against the claim).  A message that is not multipart,
    of type text/plain, whose charset has no codec: [get_content] raises
    and [parse_eml] raises with it, although the payload can be decoded
    with replacement, as the loop over the parts of a multipart message
    does for the same part. *)
Theorem single_part_unknown_charset_raises :
  is_multipart More.unknown_charset = false
  /\ get_content_type More.unknown_charset = lit "text/plain"
  /\ parse_eml (Posix.host_of More.unknown_charset None) Sample.disk Sample.mail
     = Raise (Exn LookupError (lit "unknown encoding: windows-874"))
  /\ payload_decode_replace (Posix.host_of More.unknown_charset None)
       More.unknown_charset
     = Ok (lit "hello")
  /\ parse_eml (Posix.host_of (Sample.mixed [] [More.unknown_charset]) None)
       Sample.disk Sample.mail
     = Ok ([], lit "hello", [], []).
Proof.
  split; [reflexivity|]. split; [reflexivity|].
  split; [vm_compute; reflexivity|]. split; vm_compute; reflexivity.
Qed.

Lemma parse_eml_headers (H : host) (m : message) hs bt bh atts :
  normalize_eml H m = Ok (hs, bt, bh, atts) ->
  hs = dict_of_items (some_values (items (info_of m))).
Proof.
  unfold normalize_eml, msg_items.
  destruct (items_raise (info_of m)); [discriminate|]. cbn [rbind].
  destruct (is_multipart m).
  - destruct (walk_loop H (walk m) ([], [], [])) as [[[bt0 bh0] atts0]|e];
      simpl; [|discriminate].
    intros E. now injection E as <- _ _ _.
  - destruct (str_eqb (get_content_type m) (lit "text/plain")).
    { destruct (get_content m); simpl; [|discriminate].
      intros E. now injection E as <- _ _ _. }
    destruct (str_eqb (get_content_type m) (lit "text/html")).
    { destruct (get_content m); simpl; [|discriminate].
      intros E. now injection E as <- _ _ _. }
    intros E. now injection E as <- _ _ _.
Qed.

(** C9.  When [parse_eml] returns, every header name of the message
    occurs exactly once among the keys of [headers], and it is bound to
    the value of its last occurrence in file order. *)
Theorem parse_eml_headers_last_wins :
  forall (H : host) (fs : filesystem) (path : str) (raw : bytes)
         (hs : dict hval) (bt bh : str) (atts : list attachment)
         (pre post : list (str * str)) (name value : str),
    read_file fs path = Ok raw ->
    parse_eml H fs path = Ok (hs, bt, bh, atts) ->
    items (info_of (BytesParser_parse H raw)) = pre ++ (name, value) :: post ->
    ~ In name (map fst post) ->
    count_occ str_eq_dec (dict_keys hs) name = 1
    /\ dict_get name hs = Some (Some value)
    /\ NoDup (dict_keys hs).
Proof.
  intros H fs path raw hs bt bh atts pre post name value Hread Hparse Hitems Hlast.
  rewrite (parse_eml_read H fs path raw Hread) in Hparse.
  apply parse_eml_headers in Hparse. subst hs.
  rewrite Hitems. unfold some_values, dict_of_items.
  rewrite map_app. cbn [map fst snd].
  assert (Hlast' : ~ In name (map fst (map (fun kv : str * str =>
                                              (fst kv, Some (snd kv))) post))).
  { rewrite map_map. exact Hlast. }
  destruct (fill_last_wins (map (fun kv : str * str => (fst kv, Some (snd kv))) pre)
              name (Some value) _ [] Hlast') as [Hget Hin].
  assert (Hnd : NoDup (dict_keys
                  (fill (map (fun kv : str * str => (fst kv, Some (snd kv))) pre
                         ++ (name, Some value)
                            :: map (fun kv : str * str => (fst kv, Some (snd kv))) post)
                     ([] : dict hval)))).
  { apply fill_NoDup. constructor. }
  split; [apply count_occ_NoDup_In; assumption|].
  split; assumption.
Qed.

Lemma parse_eml_headers_last_wins_witness :
  exists hs,
    parse_eml (Posix.host_of Sample.single_plain None) Sample.disk Sample.mail
    = Ok (hs, lit "hello", [], [])
    /\ count_occ str_eq_dec (dict_keys hs) (lit "Received") = 1
    /\ dict_get (lit "Received") hs = Some (Some (lit "from b")).
Proof.
  eexists. split; [reflexivity|].
  destruct (parse_eml_headers_last_wins
              (Posix.host_of Sample.single_plain None) Sample.disk Sample.mail []
              _ _ _ _
              [(lit "Received", lit "from a"); (lit "Subject", lit "hi")] []
              (lit "Received") (lit "from b")
              eq_refl eq_refl eq_refl (fun F : False => F)) as [Hc [Hg _]].
  split; [exact Hc | exact Hg].
Defined.

(* ================================================================== *)
(** ** [parse_msg] and [open_email] without the decoder *)
(* ================================================================== *)

(** C4.  When the module [extract_msg] is unavailable, [parse_msg] raises
    its RuntimeError whatever the path and the file system hold, so no
    record is produced; and [open_email] on a path whose extension is
    .msg shows the missing-dependency warning and returns with the
    loaded record, the widgets and the file system unchanged (only
    [current_path] has been set to the chosen path). *)
Theorem parse_msg_without_decoder :
  forall H : host,
    extract_msg H = None ->
    (forall fs path,
        parse_msg H fs path
        = Raise (Exn RuntimeError
            (lit "extract_msg is not installed. Install with: pip install extract_msg")))
    /\ (forall path s,
          path <> [] ->
          str_lower H (snd (os_path_splitext H path)) = lit ".msg" ->
          exists s',
            open_email H path s = (Ok tt, s')
            /\ current_meta s' = current_meta s
            /\ ui s' = ui s
            /\ files s' = files s
            /\ log s' = log s ++ [ShowWarning (lit "Missing dependency")
                                    missing_dependency_text]
            /\ current_path s' = Some path).
Proof.
  intros H Hnone. split.
  - intros fs path. unfold parse_msg. now rewrite Hnone.
  - intros path s Hpath Hext.
    unfold open_email.
    destruct path as [|c path']; [congruence|]. cbn [truthy negb].
    unfold bind, try_except. rewrite Hext, Hnone. cbn.
    eexists. split; [reflexivity|]. repeat split; reflexivity.
Qed.

Lemma parse_msg_without_decoder_witness :
  (exists e, parse_msg (Posix.host_of Sample.with_logo None) Sample.disk
               Sample.outlook = Raise e)
  /\ exists s',
       open_email (Posix.host_of Sample.with_logo None) Sample.outlook
         (Sample.state_of (Sample.eml_meta [])) = (Ok tt, s')
       /\ current_meta s' = Sample.eml_meta [].
Proof.
  pose proof (parse_msg_without_decoder (Posix.host_of Sample.with_logo None)
                eq_refl) as [Hparse Hopen].
  split.
  - eexists. apply Hparse.
  - destruct (Hopen Sample.outlook (Sample.state_of (Sample.eml_meta []))
                ltac:(discriminate) eq_refl) as [s' [E [Hm _]]].
    exists s'. split; [exact E | exact Hm].
Defined.

(* ================================================================== *)
(** ** Facts about the effects *)
(* ================================================================== *)

Lemma fs_put_same (p : str) (n : node) (fs : filesystem) :
  fs_put p n fs p = Some n.
Proof. unfold fs_put. cbn [entry]. now rewrite str_eqb_refl. Qed.

Lemma fs_put_other (p q : str) (n : node) (fs : filesystem) :
  q <> p -> fs_put p n fs q = fs q.
Proof.
  unfold fs_put. cbn [entry]. intros Hne. apply str_eqb_neq in Hne.
  now rewrite Hne.
Qed.

(** A write either fails without any change or succeeds and stores the
    data. *)
Lemma open_wb_write_cases (p : str) (data : bytes) (s : state) :
  (files s p = Some NoAccess
   /\ open_wb_write p data s = (Raise (open_error (files s) p), s))
  \/ (files s p <> Some NoAccess
      /\ open_wb_write p data s
         = (Ok tt, with_files (fs_put p (File data) (files s)) s)).
Proof.
  unfold open_wb_write. destruct (files s p) as [[b|]|].
  - right. split; [discriminate | reflexivity].
  - left. split; reflexivity.
  - right. split; [discriminate | reflexivity].
Qed.

Lemma open_wb_write_log (p : str) (data : bytes) (s : state) :
  log (snd (open_wb_write p data s)) = log s.
Proof.
  destruct (open_wb_write_cases p data s) as [[_ ->] | [_ ->]]; reflexivity.
Qed.

Lemma call_save_log f (p : str) (s : state) :
  log (snd (call_save f p s)) = log s.
Proof. unfold call_save. now destruct (f p (files s)). Qed.

(** The block under [hasattr(obj, "save")], case by case. *)
Lemma save_with_method_unfold (sm : save_method) (o : option att_handle)
    (p : str) (s : state) :
  save_with_method sm o p s
  = match call_save (save_customPath sm) p s with
    | (Ok u, s1) => (Ok u, s1)
    | (Raise e, s1) =>
        if is_TypeError e then
          match call_save (save_positional sm) p s1 with
          | (Ok u, s2) => (Ok u, s2)
          | (Raise e2, s2) =>
              match raw_buffer o with
              | Some data => open_wb_write p data s2
              | None => (Raise e2, s2)
              end
          end
        else (Raise e, s1)
    end.
Proof.
  unfold save_with_method, try_except.
  destruct (call_save (save_customPath sm) p s) as [[u|e] s1]; [reflexivity|].
  destruct (is_TypeError e); [|reflexivity].
  destruct (call_save (save_positional sm) p s1) as [[u|e2] s2]; [reflexivity|].
  cbn. now destruct (raw_buffer o).
Qed.

Lemma save_with_method_log (sm : save_method) (o : option att_handle)
    (p : str) (s : state) :
  log (snd (save_with_method sm o p s)) = log s.
Proof.
  rewrite save_with_method_unfold.
  pose proof (call_save_log (save_customPath sm) p s) as H1.
  destruct (call_save (save_customPath sm) p s) as [[u|e] s1]; [exact H1|].
  cbn [snd] in H1. destruct (is_TypeError e); [|exact H1].
  pose proof (call_save_log (save_positional sm) p s1) as H2.
  destruct (call_save (save_positional sm) p s1) as [[u|e2] s2];
    cbn [snd] in H2 |- *; [congruence|].
  destruct (raw_buffer o) as [data|]; cbn [snd]; [|congruence].
  rewrite open_wb_write_log. congruence.
Qed.

(** The body of the loop either increments [saved] without a message,
    or keeps [saved] and shows one warning, or raises without a message. *)
Lemma save_body_cases (H : host) (ty : option filetype) (dest : str)
    (a : attachment) (saved : nat) (s : state) :
  match save_body H ty dest a saved s with
  | (Ok n, s') =>
      (n = S saved /\ log s' = log s)
      \/ (n = saved /\ exists t, log s' = log s ++ [ShowWarning (lit "Warning") t])
  | (Raise _, s') => log s' = log s
  end.
Proof.
  unfold save_body. destruct ty as [[|]|].
  - unfold bind.
    pose proof (open_wb_write_log
                  (os_path_join H dest (_sanitize_filename (eml_fname a saved)))
                  (opt_or (payload a) []) s) as Hl.
    destruct (open_wb_write _ _ s) as [[u|e] s1]; cbn in Hl |- *; auto.
  - unfold bind at 1. destruct (msg_fname a) as [name|]; cbn; [|reflexivity].
    destruct (has_save (obj a)) as [sm|].
    + unfold bind.
      pose proof (save_with_method_log sm (obj a)
                    (os_path_join H dest (_sanitize_filename name)) s) as Hl.
      destruct (save_with_method _ _ _ s) as [[u|e] s1]; cbn in Hl |- *; auto.
    + destruct (raw_buffer (obj a)) as [data|].
      * unfold bind.
        pose proof (open_wb_write_log
                      (os_path_join H dest (_sanitize_filename name)) data s) as Hl.
        destruct (open_wb_write _ _ s) as [[u|e] s1]; cbn in Hl |- *; auto.
      * cbn. right. split; [reflexivity|]. eexists. reflexivity.
  - unfold bind.
    pose proof (open_wb_write_log (os_path_join H dest (filename a))
                  (opt_or (payload a) []) s) as Hl.
    destruct (open_wb_write _ _ s) as [[u|e] s1]; cbn in Hl |- *; auto.
Qed.

(** One iteration never raises: it saves and counts the attachment, or
    leaves the count and shows exactly one warning. *)
Lemma save_one_cases (H : host) (ty : option filetype) (dest : str)
    (a : attachment) (saved : nat) (s : state) :
  exists n s',
    save_one H ty dest a saved s = (Ok n, s')
    /\ ((n = S saved /\ log s' = log s
         /\ save_body H ty dest a saved s = (Ok (S saved), s'))
        \/ (n = saved
            /\ exists events,
                 log s' = log s ++ events
                 /\ List.length (filter is_warning events) = 1)).
Proof.
  unfold save_one, try_except.
  pose proof (save_body_cases H ty dest a saved s) as Hb.
  destruct (save_body H ty dest a saved s) as [[n|e] s1].
  - exists n, s1. split; [reflexivity|].
    destruct Hb as [[-> Hl] | [-> [t Hl]]].
    + left. auto.
    + right. split; [reflexivity|]. eexists. split; [exact Hl | reflexivity].
  - cbn. eexists _, _. split; [reflexivity|]. right. split; [reflexivity|].
    cbn. rewrite Hb. rewrite <- app_assoc. eexists. split; reflexivity.
Qed.

Lemma save_loop_app (H : host) (ty : option filetype) (dest : str)
    (l1 l2 : list attachment) (saved : nat) (s : state) :
  save_loop H ty dest (l1 ++ l2) saved s
  = match save_loop H ty dest l1 saved s with
    | (Ok n, s') => save_loop H ty dest l2 n s'
    | (Raise e, s') => (Raise e, s')
    end.
Proof.
  revert saved s. induction l1 as [|a l1 IH]; intros saved s; [reflexivity|].
  cbn [app save_loop]. unfold bind.
  destruct (save_one H ty dest a saved s) as [[n|e] s1]; [apply IH | reflexivity].
Qed.

Lemma save_loop_total (H : host) (ty : option filetype) (dest : str)
    (l : list attachment) :
  forall saved s,
    exists n s' events,
      save_loop H ty dest l saved s = (Ok n, s')
      /\ List.length (save_trace H ty dest l saved s) = List.length l
      /\ n = saved + count_occ bool_dec (save_trace H ty dest l saved s) true
      /\ log s' = log s ++ events
      /\ List.length (filter is_warning events)
         = count_occ bool_dec (save_trace H ty dest l saved s) false.
Proof.
  induction l as [|a l IH]; intros saved s.
  - exists saved, s, []. cbn. rewrite app_nil_r. repeat split; lia.
  - cbn [save_loop save_trace]. unfold bind.
    destruct (save_one_cases H ty dest a saved s) as [n [s1 [E Hcase]]].
    rewrite E.
    destruct (IH n s1) as [n' [s' [events [El [Hlen [Hn [Hlog Hw]]]]]]].
    destruct Hcase as [[-> [Hl _]] | [-> [ev1 [Hl Hone]]]].
    + exists n', s', events. rewrite El. split; [reflexivity|].
      assert (Hlt : Nat.ltb saved (S saved) = true) by (apply Nat.ltb_lt; lia).
      rewrite Hlt. cbn [List.length count_occ].
      destruct (bool_dec true true) as [_|F]; [|congruence].
      destruct (bool_dec true false) as [F|_]; [discriminate|].
      repeat split; [lia | lia | congruence | exact Hw].
    + exists n', s', (ev1 ++ events). rewrite El. split; [reflexivity|].
      rewrite Nat.ltb_irrefl. cbn [List.length count_occ].
      destruct (bool_dec false true) as [F|_]; [discriminate|].
      destruct (bool_dec false false) as [_|F]; [|congruence].
      repeat split; [lia | lia | rewrite Hlog, Hl, app_assoc; reflexivity |].
      rewrite filter_app, length_app. lia.
Qed.

(* ================================================================== *)
(** ** Saving all attachments *)
(* ================================================================== *)


(** C8.  An attachment of an [.eml] message whose payload is absent or
    of length zero: when the destination can be opened, the loop
    iteration writes an empty file there, increments [saved] and shows
    no message; saving it as the selected attachment writes an empty
    file and reports it saved. *)
Theorem save_empty_eml_payload :
  forall a : attachment,
    payload a = None \/ payload a = Some [] ->
    (forall (H : host) (dest : str) (saved : nat) (s : state),
        let full := os_path_join H dest (_sanitize_filename (eml_fname a saved)) in
        files s full <> Some NoAccess ->
        exists s',
          save_one H (Some eml) dest a saved s = (Ok (S saved), s')
          /\ files s' full = Some (File [])
          /\ (forall q, q <> full -> files s' q = files s q)
          /\ log s' = log s)
    /\ (forall (dest_file : str) (s : state),
          files s dest_file <> Some NoAccess ->
          exists s',
            save_selected_body (Some eml) a dest_file s = (Ok tt, s')
            /\ files s' dest_file = Some (File [])
            /\ log s' = log s ++ [ShowInfo (lit "Saved")
                                    (lit "Attachment saved to: " ++ dest_file)]).
Proof.
  intros a Hempty.
  assert (Hp : opt_or (payload a) [] = ([] : bytes))
    by (destruct Hempty as [-> | ->]; reflexivity).
  split.
  - intros H dest saved s full Hfree.
    unfold save_one, try_except, save_body, bind. fold full. rewrite Hp.
    destruct (open_wb_write_cases full [] s) as [[Hno _] | [_ ->]];
      [contradiction|].
    eexists. split; [reflexivity|]. cbn [files with_files log].
    split; [apply fs_put_same|]. split; [|reflexivity].
    intros q Hq. now apply fs_put_other.
  - intros dest_file s Hfree.
    unfold save_selected_body, bind. rewrite Hp.
    destruct (open_wb_write_cases dest_file [] s) as [[Hno _] | [_ ->]];
      [contradiction|].
    eexists. split; [reflexivity|]. cbn. split; [apply fs_put_same | reflexivity].
Qed.

Lemma save_empty_eml_payload_witness :
  exists s',
    save_one (Posix.host_of Sample.with_logo None) (Some eml) Sample.out
      (Sample.eml_att "a.txt" None) 0 (Sample.state_of (Sample.eml_meta []))
    = (Ok 1, s')
    /\ files s' (lit "/out/a.txt") = Some (File []).
Proof.
  destruct (proj1 (save_empty_eml_payload (Sample.eml_att "a.txt" None)
                     (or_introl eq_refl))
              (Posix.host_of Sample.with_logo None) Sample.out 0
              (Sample.state_of (Sample.eml_meta []))
              ltac:(discriminate)) as [s' [E [Hf _]]].
  exists s'. split; [exact E | exact Hf].
Defined.

(* ================================================================== *)
(** ** Saving one [.msg] attachment *)
(* ================================================================== *)

Lemma save_one_msg_unfold (H : host) (dest : str) (a : attachment)
    (saved : nat) (name : str) (s : state) :
  msg_fname a = Some name ->
  let full := os_path_join H dest (_sanitize_filename name) in
  save_body H (Some msg) dest a saved s
  = match has_save (obj a) with
    | Some sm =>
        match save_with_method sm (obj a) full s with
        | (Ok _, s1) => (Ok (S saved), s1)
        | (Raise e, s1) => (Raise e, s1)
        end
    | None =>
        match raw_buffer (obj a) with
        | Some data =>
            match open_wb_write full data s with
            | (Ok _, s1) => (Ok (S saved), s1)
            | (Raise e, s1) => (Raise e, s1)
            end
        | None =>
            (Ok saved,
             with_log (log s ++ [ShowWarning (lit "Warning")
                                   (lit "Could not save attachment: " ++ name)]) s)
        end
    end.
Proof.
  intros Hname full. unfold save_body. rewrite Hname. cbn [sanitize_value].
  unfold bind at 1. cbn [ret]. fold full.
  destruct (has_save (obj a)) as [sm|].
  - unfold bind. now destruct (save_with_method sm (obj a) full s) as [[u|e] s1].
  - destruct (raw_buffer (obj a)) as [data|].
    + unfold bind. now destruct (open_wb_write full data s) as [[u|e] s1].
    + reflexivity.
Qed.

(** The attachments [parse_msg] returns have a non-empty name, which is
    the name the loop sanitizes. *)
Lemma parse_msg_names (H : host) (fs : filesystem) (path : str)
    hs bt bh atts :
  parse_msg H fs path = Ok (hs, bt, bh, atts) ->
  Forall (fun a => filename a <> [] /\ msg_fname a = Some (filename a)) atts.
Proof.
  unfold parse_msg. destruct (extract_msg H) as [Message|]; [|discriminate].
  destruct (Message path fs) as [m|e]; cbn; [|discriminate].
  intros E. injection E as _ _ _ <-.
  apply Forall_forall. intros a Ha. apply in_map_iff in Ha.
  destruct Ha as [h [<- _]]. cbn [filename obj].
  assert (Hne : handle_name h <> []).
  { unfold handle_name, attr_or, or_else.
    destruct (h_longFilename h) as [| |[|c l]]; cbn;
      destruct (h_filename h) as [| |[|c' l']]; cbn; discriminate. }
  split; [exact Hne|]. unfold msg_fname. cbn [filename obj].
  destruct (handle_name h); [congruence | reflexivity].
Qed.

Lemma save_one_of_body (H : host) (ty : option filetype) (dest : str)
    (a : attachment) (saved : nat) (s : state) :
  save_one H ty dest a saved s
  = match save_body H ty dest a saved s with
    | (Ok n, s1) => (Ok n, s1)
    | (Raise e, s1) =>
        (Ok saved,
         with_log (log s1 ++ [PrintExc e]
                   ++ [ShowWarning (lit "Save error")
                         (lit "Failed to save one attachment: " ++ exn_text e)]) s1)
    end.
Proof.
  unfold save_one, try_except.
  destruct (save_body H ty dest a saved s) as [[n|e] s1]; [reflexivity|].
  cbn. now rewrite <- app_assoc.
Qed.

Lemma attr_or_blank {A : Type} (x : attr (list A)) (d : list A) :
  blank x -> attr_or x d = d.
Proof.
  unfold blank, attr_or, or_else. destruct x as [| |l]; try reflexivity.
  intros Hb. now rewrite (Hb l eq_refl).
Qed.

Lemma attr_or_text {A : Type} (x : attr (list A)) (t d : list A) :
  holds_text x t -> attr_or x d = t.
Proof.
  intros [-> Hne]. unfold attr_or, or_else. destruct t; [congruence | reflexivity].
Qed.






(* ================================================================== *)
(** ** More about [parse_eml] *)
(* ================================================================== *)

Lemma message_nested_ind (P : message -> Prop) :
  (forall i b c, P (Leaf i b c)) ->
  (forall i ps, Forall P ps -> P (Multipart i ps)) ->
  forall m, P m.
Proof.
  intros HL HM. fix IH 1. intros [i b c | i ps].
  - apply HL.
  - apply HM. induction ps as [|p ps IHps]; constructor; [apply IH | exact IHps].
Qed.

Lemma walk_self (m : message) : In m (walk m).
Proof. destruct m; left; reflexivity. Qed.

(** The parts of a walked part are walked. *)
Lemma walk_nested (m : message) :
  forall p q, In p (walk m) -> In q (walk p) -> In q (walk m).
Proof.
  induction m as [i b c | i ps IH] using message_nested_ind; intros p q Hp Hq.
  - destruct Hp as [<- | []]. exact Hq.
  - cbn [walk] in Hp. destruct Hp as [<- | Hp]; [exact Hq|].
    cbn [walk]. right. apply in_flat_map in Hp. destruct Hp as [x [Hx Hp]].
    apply in_flat_map. exists x. split; [exact Hx|].
    rewrite Forall_forall in IH. exact (IH x Hx p q Hp Hq).
Qed.

Section MoreWalkFacts.
Variable H : host.

Lemma walk_loop_keeps_html parts :
  forall bt bh atts bt' bh' atts',
    walk_loop H parts (bt, bh, atts) = Ok (bt', bh', atts') ->
    bh <> [] -> bh' = bh.
Proof.
  induction parts as [|p parts IH]; intros bt bh atts bt' bh' atts' E Hne;
    simpl in E.
  - now injection E as _ <- _.
  - unfold walk_step in E. destruct (is_attachment_part p).
    + simpl in E. eapply IH; eauto.
    + assert (Ht : truthy bh = true) by (destruct bh; [congruence | reflexivity]).
      rewrite Ht, andb_false_r in E.
      destruct (str_eqb _ _ && negb (truthy bt)).
      { destruct (part_text H p) as [t|e]; simpl in E; [|discriminate].
        eapply IH; eauto. }
      simpl in E. eapply IH; eauto.
Qed.

Lemma first_nonempty_html_part_wins pre p post :
  forall t bt atts bt' bh' atts',
    (forall q, In q pre ->
       is_attachment_part q = true
       \/ str_eqb (get_content_type q) (lit "text/html") = false
       \/ part_text H q = Ok []) ->
    is_attachment_part p = false ->
    get_content_type p = lit "text/html" ->
    part_text H p = Ok t -> t <> [] ->
    walk_loop H (pre ++ p :: post) (bt, [], atts) = Ok (bt', bh', atts') ->
    bh' = t.
Proof.
  induction pre as [|q pre IH]; intros t bt atts bt' bh' atts' Hpre Hp Hct Ht Hne E.
  - cbn [app walk_loop] in E. unfold walk_step in E.
    rewrite Hp, Hct, Ht in E. cbn in E.
    eapply walk_loop_keeps_html; eauto.
  - cbn [app walk_loop] in E. unfold walk_step in E.
    assert (Hpre' : forall q0, In q0 pre ->
              is_attachment_part q0 = true
              \/ str_eqb (get_content_type q0) (lit "text/html") = false
              \/ part_text H q0 = Ok []) by (intros q0 Hq0; apply Hpre; now right).
    destruct (is_attachment_part q) eqn:Ea.
    + cbn in E. eapply IH; eauto.
    + destruct (str_eqb (get_content_type q) (lit "text/plain") && negb (truthy bt)).
      { destruct (part_text H q) as [t0|e]; cbn in E; [|discriminate].
        eapply IH; eauto. }
      destruct (str_eqb (get_content_type q) (lit "text/html")) eqn:Eq.
      * destruct (Hpre q (or_introl eq_refl)) as [F | [F | Hempty]];
          try congruence.
        cbn in E. rewrite Hempty in E. cbn in E. eapply IH; eauto.
      * cbn in E. eapply IH; eauto.
Qed.

(** Without a candidate the bodies stay empty. *)
Lemma walk_loop_no_plain parts :
  forall bh atts bt' bh' atts',
    (forall q, In q parts ->
       is_attachment_part q = true
       \/ str_eqb (get_content_type q) (lit "text/plain") = false
       \/ part_text H q = Ok []) ->
    walk_loop H parts ([], bh, atts) = Ok (bt', bh', atts') ->
    bt' = [].
Proof.
  induction parts as [|q parts IH]; intros bh atts bt' bh' atts' Hall E.
  - cbn in E. now injection E as <- _ _.
  - cbn [walk_loop] in E. unfold walk_step in E.
    assert (Hall' : forall q0, In q0 parts ->
              is_attachment_part q0 = true
              \/ str_eqb (get_content_type q0) (lit "text/plain") = false
              \/ part_text H q0 = Ok []) by (intros q0 Hq0; apply Hall; now right).
    destruct (is_attachment_part q) eqn:Ea.
    + cbn in E. eapply IH; eauto.
    + destruct (str_eqb (get_content_type q) (lit "text/plain")) eqn:Eq.
      * destruct (Hall q (or_introl eq_refl)) as [F | [F | Hempty]];
          try congruence.
        cbn in E. rewrite Hempty in E. cbn in E. eapply IH; eauto.
      * cbn [andb] in E.
        destruct (str_eqb _ _ && negb (truthy bh)).
        { destruct (part_text H q) as [t0|e]; cbn in E; [|discriminate].
          eapply IH; eauto. }
        cbn in E. eapply IH; eauto.
Qed.

Lemma attachment_of_part_named (p : message) :
  filename (attachment_of_part p) <> [].
Proof.
  unfold attachment_of_part, opt_or, or_else. cbn [filename].
  destruct (get_filename p) as [[|c f]|]; cbn; discriminate.
Qed.

(** What [normalize_eml] returns for a message that is not multipart. *)
Lemma normalize_eml_single (m : message) hs bt bh atts :
  is_multipart m = false ->
  normalize_eml H m = Ok (hs, bt, bh, atts) ->
  atts = []
  /\ (get_content_type m <> lit "text/plain" -> bt = [])
  /\ (get_content_type m <> lit "text/html" -> bh = []).
Proof.
  unfold normalize_eml, msg_items. intros ->.
  destruct (items_raise (info_of m)); [discriminate|]. cbn [rbind].
  destruct (str_eqb (get_content_type m) (lit "text/plain")) eqn:Ep.
  { apply str_eqb_eq in Ep.
    destruct (get_content m); cbn; [|discriminate].
    intros E. injection E as _ _ <- <-. rewrite Ep.
    split; [reflexivity | split; intros F; [|reflexivity]].
    exfalso. apply F. reflexivity. }
  destruct (str_eqb (get_content_type m) (lit "text/html")) eqn:Eh.
  { apply str_eqb_eq in Eh.
    destruct (get_content m); cbn; [|discriminate].
    intros E. injection E as _ <- _ <-. rewrite Eh.
    split; [reflexivity | split; intros F; [reflexivity|]].
    exfalso. apply F. reflexivity. }
  intros E. injection E as _ <- <- <-.
  split; [reflexivity | split; intros; reflexivity].
Qed.

End MoreWalkFacts.

Section MoreDictFacts.
Context {V : Type}.
Implicit Types (d : dict V) (k : str) (v : V).

Lemma dict_set_fresh k v d :
  ~ In k (dict_keys d) -> dict_set k v d = d ++ [(k, v)].
Proof.
  induction d as [|[k0 v0] d IH]; intros Hk; cbn; [reflexivity|].
  cbn in Hk. destruct (str_eqb k0 k) eqn:E.
  - apply str_eqb_eq in E. tauto.
  - f_equal. apply IH. tauto.
Qed.

Lemma fill_cons k v (l : list (str * V)) d :
  fill ((k, v) :: l) d = fill l (dict_set k v d).
Proof. reflexivity. Qed.

Lemma fill_fresh l : forall d,
  NoDup (map fst l) ->
  (forall k, In k (map fst l) -> ~ In k (dict_keys d)) ->
  fill l d = d ++ l.
Proof.
  induction l as [|[k v] l IH]; intros d Hnd Hfresh.
  - cbn. now rewrite app_nil_r.
  - cbn in Hnd. inversion Hnd as [|? ? Hk Hnd']; subst.
    rewrite fill_cons.
    rewrite (dict_set_fresh k v d) by (apply Hfresh; now left).
    rewrite IH; [now rewrite <- app_assoc | exact Hnd' |].
    intros k' Hk' Hin. unfold dict_keys in Hin. rewrite map_app in Hin.
    apply in_app_or in Hin. destruct Hin as [Hin | [<- | []]].
    + apply (Hfresh k'); [now right | exact Hin].
    + contradiction.
Qed.

Lemma fill_keys l : forall d k,
  In k (dict_keys (fill l d)) <-> In k (dict_keys d) \/ In k (map fst l).
Proof.
  induction l as [|[k0 v0] l IH]; intros d k; [cbn; tauto|].
  rewrite fill_cons, IH, dict_keys_set. cbn [map fst In].
  destruct (existsb (fun k' => str_eqb k' k0) (dict_keys d)) eqn:E.
  - apply existsb_key in E. split; [tauto|].
    intros [Hd | [<- | Hl]]; tauto.
  - rewrite in_app_iff. cbn. tauto.
Qed.

Lemma dict_get_None k d : dict_get k d = None <-> ~ In k (dict_keys d).
Proof.
  induction d as [|[k0 v0] d IH]; cbn; [tauto|].
  destruct (str_eqb k0 k) eqn:E.
  - apply str_eqb_eq in E. split; [discriminate | tauto].
  - apply str_eqb_neq in E. rewrite IH. tauto.
Qed.

Lemma dict_set_length k v d :
  List.length (dict_set k v d) <= S (List.length d).
Proof.
  induction d as [|[k0 v0] d IH]; cbn; [lia|].
  destruct (str_eqb k0 k); cbn; lia.
Qed.

Lemma fill_length l : forall d,
  List.length (fill l d) <= List.length d + List.length l.
Proof.
  induction l as [|[k v] l IH]; intros d; [cbn; lia|].
  rewrite fill_cons. cbn [List.length].
  pose proof (IH (dict_set k v d)). pose proof (dict_set_length k v d). lia.
Qed.

End MoreDictFacts.

Lemma some_values_keys (l : list (str * str)) :
  map fst (some_values l) = map fst l.
Proof. unfold some_values. rewrite map_map. reflexivity. Qed.

Lemma str_neq_eqb (a b : str) : a <> b -> str_eqb a b = false.
Proof. apply str_eqb_neq. Qed.

Lemma yields_no_text_eqb (H : host) (kind : string) (q : message) :
  yields_no_text H kind q ->
  is_attachment_part q = true
  \/ str_eqb (get_content_type q) (lit kind) = false
  \/ part_text H q = Ok [].
Proof.
  intros [Ha | [Hc | Ht]]; auto. right. left. now apply str_eqb_neq.
Qed.

Lemma walk_loop_no_html (H : host) parts :
  forall bt atts bt' bh' atts',
    (forall q, In q parts -> yields_no_text H "text/html" q) ->
    walk_loop H parts (bt, [], atts) = Ok (bt', bh', atts') ->
    bh' = [].
Proof.
  induction parts as [|q parts IH]; intros bt atts bt' bh' atts' Hall E.
  - cbn in E. now injection E as _ <- _.
  - cbn [walk_loop] in E. unfold walk_step in E.
    assert (Hall' : forall q0, In q0 parts -> yields_no_text H "text/html" q0)
      by (intros q0 Hq0; apply Hall; now right).
    destruct (is_attachment_part q) eqn:Ea.
    + cbn in E. eapply IH; eauto.
    + destruct (str_eqb (get_content_type q) (lit "text/plain") && negb (truthy bt)).
      { destruct (part_text H q) as [t0|e]; cbn in E; [|discriminate].
        eapply IH; eauto. }
      destruct (str_eqb (get_content_type q) (lit "text/html")) eqn:Eq.
      * destruct (yields_no_text_eqb H _ q (Hall q (or_introl eq_refl)))
          as [F | [F | Hempty]]; try congruence.
        cbn in E. rewrite Hempty in E. cbn in E. eapply IH; eauto.
      * cbn in E. eapply IH; eauto.
Qed.

(** X1.  For a multipart message, [body_text] is the text of the first
    part in document order that is not an attachment, has type
    text/plain and yields a non-empty text, and it is empty when there is
    no such part; likewise [body_html] with text/html. *)
Theorem parse_eml_bodies_first_nonempty :
  forall (H : host) (fs : filesystem) (path : str) (raw : bytes)
         (hs : dict hval) (bt bh : str) (atts : list attachment),
    read_file fs path = Ok raw ->
    is_multipart (BytesParser_parse H raw) = true ->
    parse_eml H fs path = Ok (hs, bt, bh, atts) ->
    let parts := walk (BytesParser_parse H raw) in
    (forall pre p post t,
        parts = pre ++ p :: post ->
        (forall q, In q pre -> yields_no_text H "text/plain" q) ->
        is_attachment_part p = false ->
        get_content_type p = lit "text/plain" ->
        part_text H p = Ok t -> t <> [] ->
        bt = t)
    /\ (forall pre p post t,
          parts = pre ++ p :: post ->
          (forall q, In q pre -> yields_no_text H "text/html" q) ->
          is_attachment_part p = false ->
          get_content_type p = lit "text/html" ->
          part_text H p = Ok t -> t <> [] ->
          bh = t)
    /\ ((forall q, In q parts -> yields_no_text H "text/plain" q) -> bt = [])
    /\ ((forall q, In q parts -> yields_no_text H "text/html" q) -> bh = []).
Proof.
  intros H fs path raw hs bt bh atts Hread Hmulti Hparse parts.
  rewrite (parse_eml_read H fs path raw Hread) in Hparse.
  destruct (normalize_eml_multipart H _ hs bt bh atts Hmulti Hparse) as [_ Hloop].
  fold parts in Hloop.
  split; [|split; [|split]].
  - intros pre p post t Hsplit Hpre Hp Hct Ht Hne. rewrite Hsplit in Hloop.
    eapply (first_nonempty_plain_part_wins H pre p post); eauto.
    intros q Hq. apply yields_no_text_eqb, Hpre, Hq.
  - intros pre p post t Hsplit Hpre Hp Hct Ht Hne. rewrite Hsplit in Hloop.
    eapply (first_nonempty_html_part_wins H pre p post); eauto.
    intros q Hq. apply yields_no_text_eqb, Hpre, Hq.
  - intros Hall. eapply (walk_loop_no_plain H parts); eauto.
    intros q Hq. apply yields_no_text_eqb, Hall, Hq.
  - intros Hall. eapply (walk_loop_no_html H parts); eauto.
Qed.

Lemma parse_eml_bodies_first_nonempty_witness :
  exists hs bt bh atts,
    parse_eml (Posix.host_of More.with_undecodable None) Sample.disk Sample.mail
    = Ok (hs, bt, bh, atts)
    /\ bt = lit "hi" /\ bh = lit "<b>hi</b>".
Proof.
  eexists _, _, _, _. split; [reflexivity|].
  pose proof (parse_eml_bodies_first_nonempty
                (Posix.host_of More.with_undecodable None) Sample.disk
                Sample.mail [] _ _ _ _ eq_refl eq_refl eq_refl) as [Hp [Hh _]].
  split.
  - apply (Hp [More.with_undecodable; Sample.text_part ""] More.undecodable
              [Sample.html_part ""; Sample.html_part "<b>hi</b>";
               Sample.text_part "late"] (lit "hi") eq_refl);
      [|reflexivity|reflexivity|reflexivity|discriminate].
    intros q [<- | [<- | []]].
    + right. left. discriminate.
    + right. right. reflexivity.
  - apply (Hh [More.with_undecodable; Sample.text_part ""; More.undecodable;
               Sample.html_part ""] (Sample.html_part "<b>hi</b>")
              [Sample.text_part "late"] (lit "<b>hi</b>") eq_refl);
      [|reflexivity|reflexivity|reflexivity|discriminate].
    intros q [<- | [<- | [<- | [<- | []]]]].
    + right. left. discriminate.
    + right. left. discriminate.
    + right. left. discriminate.
    + right. right. reflexivity.
Defined.





(** X4.  A message that is not multipart never has attachments, even
    when it has the attachment disposition and a file name; when its
    header fields parse and its type is neither text/plain nor text/html
    both bodies are empty as well. *)
Theorem parse_eml_single_part_never_attaches :
  forall (H : host) (fs : filesystem) (path : str) (raw : bytes),
    read_file fs path = Ok raw ->
    is_multipart (BytesParser_parse H raw) = false ->
    let m := BytesParser_parse H raw in
    (forall hs bt bh atts,
        parse_eml H fs path = Ok (hs, bt, bh, atts) -> atts = [])
    /\ (items_raise (info_of m) = None ->
        get_content_type m <> lit "text/plain" ->
        get_content_type m <> lit "text/html" ->
        parse_eml H fs path
        = Ok (dict_of_items (some_values (items (info_of m))), [], [], [])).
Proof.
  intros H fs path raw Hread Hsingle m.
  rewrite (parse_eml_read H fs path raw Hread). fold m in Hsingle |- *. split.
  - intros hs bt bh atts E.
    now destruct (normalize_eml_single H m hs bt bh atts Hsingle E) as [-> _].
  - intros Hitems Hp Hh. unfold normalize_eml, msg_items.
    rewrite Hitems, Hsingle, (str_neq_eqb _ _ Hp), (str_neq_eqb _ _ Hh).
    reflexivity.
Qed.

Lemma parse_eml_single_part_never_attaches_witness :
  is_attachment_part More.lone_pdf = true
  /\ parse_eml (Posix.host_of More.lone_pdf None) Sample.disk Sample.mail
     = Ok ([(lit "Subject", Some (lit "scan"))], [], [], []).
Proof.
  split; [reflexivity|].
  apply (proj2 (parse_eml_single_part_never_attaches
                  (Posix.host_of More.lone_pdf None) Sample.disk Sample.mail []
                  eq_refl eq_refl)); [reflexivity | discriminate | discriminate].
Defined.

(** X5.  Every attachment record [parse_eml] returns has a non-empty
    file name, a content type and no decoder handle, so the loop that
    saves them never falls back to the numbered name; and there are at
    most as many records as walked parts. *)
Theorem parse_eml_attachment_records :
  forall (H : host) (fs : filesystem) (path : str) (raw : bytes)
         (hs : dict hval) (bt bh : str) (atts : list attachment),
    read_file fs path = Ok raw ->
    parse_eml H fs path = Ok (hs, bt, bh, atts) ->
    Forall (fun a =>
              filename a <> []
              /\ (exists c, content_type a = Some c)
              /\ obj a = None
              /\ forall saved, eml_fname a saved = filename a) atts
    /\ List.length atts <= List.length (walk (BytesParser_parse H raw)).
Proof.
  intros H fs path raw hs bt bh atts Hread Hparse.
  rewrite (parse_eml_read H fs path raw Hread) in Hparse.
  destruct (is_multipart (BytesParser_parse H raw)) eqn:Hm.
  - destruct (normalize_eml_multipart H _ hs bt bh atts Hm Hparse) as [_ Hloop].
    apply walk_loop_attachments in Hloop. cbn [app] in Hloop. subst atts. split.
    + apply Forall_forall. intros a Ha. apply in_map_iff in Ha.
      destruct Ha as [p [<- _]].
      pose proof (attachment_of_part_named p) as Hne.
      split; [exact Hne|]. split; [eexists; reflexivity|].
      split; [reflexivity|]. intros saved. unfold eml_fname, or_else.
      destruct (filename (attachment_of_part p)); [congruence | reflexivity].
    + rewrite length_map. apply filter_length_le.
  - destruct (normalize_eml_single H _ hs bt bh atts Hm Hparse) as [-> _].
    split; [constructor | cbn; lia].
Qed.

Lemma parse_eml_attachment_records_witness :
  exists atts,
    parse_eml (Posix.host_of Sample.with_logo None) Sample.disk Sample.mail
    = Ok ([], lit "hello", lit "<p>hello</p>", atts)
    /\ Forall (fun a => filename a <> []) atts
    /\ List.length atts <= 5.
Proof.
  eexists. split; [reflexivity|].
  destruct (parse_eml_attachment_records
              (Posix.host_of Sample.with_logo None) Sample.disk Sample.mail []
              _ _ _ _ eq_refl eq_refl) as [Hall Hlen].
  split; [|exact Hlen].
  eapply Forall_impl; [|exact Hall]. intros a Ha. exact (proj1 Ha).
Defined.

(** X6.  When the header names of the message are pairwise distinct,
    [headers] holds every header, in file order, with its value. *)
Theorem parse_eml_headers_distinct :
  forall (H : host) (fs : filesystem) (path : str) (raw : bytes)
         (hs : dict hval) (bt bh : str) (atts : list attachment),
    read_file fs path = Ok raw ->
    parse_eml H fs path = Ok (hs, bt, bh, atts) ->
    NoDup (map fst (items (info_of (BytesParser_parse H raw)))) ->
    hs = some_values (items (info_of (BytesParser_parse H raw))).
Proof.
  intros H fs path raw hs bt bh atts Hread Hparse Hnd.
  rewrite (parse_eml_read H fs path raw Hread) in Hparse.
  apply parse_eml_headers in Hparse. subst hs. unfold dict_of_items.
  rewrite fill_fresh; [reflexivity | now rewrite some_values_keys |].
  intros k _ [].
Qed.

Lemma parse_eml_headers_distinct_witness :
  exists hs,
    parse_eml (Posix.host_of More.with_headers None) Sample.disk Sample.mail
    = Ok (hs, lit "hello", [], [])
    /\ hs = some_values More.distinct_headers.
Proof.
  assert (Hnd : NoDup (map fst More.distinct_headers)).
  { repeat constructor; cbn; intuition discriminate. }
  eexists. split; [reflexivity|].
  exact (parse_eml_headers_distinct
           (Posix.host_of More.with_headers None) Sample.disk Sample.mail []
           _ _ _ _ eq_refl eq_refl Hnd).
Defined.

(** X7.  The keys of [headers] are exactly the header names of the
    message: a name is a key if and only if it occurs in the message, a
    lookup fails exactly for the names that do not occur, and there are
    never more keys than header fields. *)
Theorem parse_eml_header_keys :
  forall (H : host) (fs : filesystem) (path : str) (raw : bytes)
         (hs : dict hval) (bt bh : str) (atts : list attachment),
    read_file fs path = Ok raw ->
    parse_eml H fs path = Ok (hs, bt, bh, atts) ->
    let names := map fst (items (info_of (BytesParser_parse H raw))) in
    (forall k, In k (dict_keys hs) <-> In k names)
    /\ (forall k, dict_get k hs = None <-> ~ In k names)
    /\ List.length hs <= List.length names.
Proof.
  intros H fs path raw hs bt bh atts Hread Hparse names.
  rewrite (parse_eml_read H fs path raw Hread) in Hparse.
  apply parse_eml_headers in Hparse. subst hs. unfold dict_of_items.
  assert (Hk : forall k,
             In k (dict_keys (fill (some_values
                                      (items (info_of (BytesParser_parse H raw))))
                                ([] : dict hval)))
             <-> In k names).
  { intros k. rewrite fill_keys, some_values_keys. cbn. fold names. tauto. }
  split; [exact Hk|]. split.
  - intros k. rewrite dict_get_None, Hk. tauto.
  - pose proof (fill_length (some_values
                               (items (info_of (BytesParser_parse H raw))))
                  ([] : dict hval)) as Hl.
    unfold names. rewrite length_map. unfold some_values in Hl.
    rewrite length_map in Hl. exact Hl.
Qed.

Lemma parse_eml_header_keys_witness :
  exists hs,
    parse_eml (Posix.host_of Sample.single_plain None) Sample.disk Sample.mail
    = Ok (hs, lit "hello", [], [])
    /\ dict_get (lit "Cc") hs = None
    /\ List.length hs <= 3.
Proof.
  eexists. split; [reflexivity|].
  destruct (parse_eml_header_keys
              (Posix.host_of Sample.single_plain None) Sample.disk Sample.mail []
              _ _ _ _ eq_refl eq_refl) as [_ [Hget Hlen]].
  split; [|exact Hlen].
  apply Hget. cbn. intuition discriminate.
Defined.

(** X8.  A container part that satisfies the attachment rule (a forwarded
    message with a file name, say) is recorded as an attachment whose
    payload is absent, shown as 0 bytes, and the parts inside it are
    still walked: those that satisfy the rule are recorded too. *)
Theorem parse_eml_container_attachment :
  forall (H : host) (fs : filesystem) (path : str) (raw : bytes)
         (hs : dict hval) (bt bh : str) (atts : list attachment) (p : message),
    read_file fs path = Ok raw ->
    is_multipart (BytesParser_parse H raw) = true ->
    parse_eml H fs path = Ok (hs, bt, bh, atts) ->
    In p (walk (BytesParser_parse H raw)) ->
    is_multipart p = true ->
    is_attachment_part p = true ->
    In (attachment_of_part p) atts
    /\ payload (attachment_of_part p) = None
    /\ listbox_line (attachment_of_part p)
       = filename (attachment_of_part p) ++ lit " (0 bytes)"
    /\ (forall q, In q (walk p) -> is_attachment_part q = true ->
                  In (attachment_of_part q) atts).
Proof.
  intros H fs path raw hs bt bh atts p Hread Hmulti Hparse Hp Hpm Hpa.
  rewrite (parse_eml_read H fs path raw Hread) in Hparse.
  destruct (normalize_eml_multipart H _ hs bt bh atts Hmulti Hparse) as [_ Hloop].
  apply walk_loop_attachments in Hloop. cbn [app] in Hloop. subst atts.
  assert (Hrec : forall q, In q (walk (BytesParser_parse H raw)) ->
                           is_attachment_part q = true ->
                           In (attachment_of_part q)
                              (map attachment_of_part
                                 (filter is_attachment_part
                                    (walk (BytesParser_parse H raw))))).
  { intros q Hq Hqa. apply in_map, filter_In. auto. }
  assert (Hnone : payload (attachment_of_part p) = None).
  { destruct p; [discriminate | reflexivity]. }
  split; [apply Hrec; assumption|]. split; [exact Hnone|]. split.
  - unfold listbox_line. rewrite Hnone. reflexivity.
  - intros q Hq Hqa. apply Hrec; [|exact Hqa]. eapply walk_nested; eauto.
Qed.

Lemma parse_eml_container_attachment_witness :
  exists atts,
    parse_eml (Posix.host_of More.with_forwarded None) Sample.disk Sample.mail
    = Ok ([], lit "outer", [], atts)
    /\ In (attachment_of_part More.forwarded) atts
    /\ payload (attachment_of_part More.forwarded) = None
    /\ In (attachment_of_part Sample.inline_logo) atts.
Proof.
  eexists. split; [reflexivity|].
  destruct (parse_eml_container_attachment
              (Posix.host_of More.with_forwarded None) Sample.disk Sample.mail []
              _ _ _ _ More.forwarded eq_refl eq_refl eq_refl
              (or_intror (or_intror (or_introl eq_refl))) eq_refl eq_refl)
    as [Hin [Hnone [_ Hinner]]].
  split; [exact Hin|]. split; [exact Hnone|].
  apply Hinner; [|reflexivity]. cbn. tauto.
Defined.

(* ================================================================== *)
(** ** More about [parse_msg] *)
(* ================================================================== *)

Lemma handle_name_nonempty (h : att_handle) : handle_name h <> [].
Proof.
  unfold handle_name, attr_or, or_else.
  destruct (h_longFilename h) as [| |[|c l]]; cbn;
    destruct (h_filename h) as [| |[|c' l']]; cbn; discriminate.
Qed.

(** X9.  With the decoder present, [parse_msg] returns whatever the
    decoder's object holds: the four keys From, To, Subject and Date in
    this order, a body that is empty when the attribute is missing,
    [None] or empty, and one attachment record per decoder attachment,
    in order, each holding its handle, a non-empty name, and neither a
    content type nor a payload.  A failure of the decoder is raised
    unchanged. *)
Theorem parse_msg_record_shape :
  forall (H : host) (Message : str -> filesystem -> result msg_file)
         (fs : filesystem) (path : str),
    extract_msg H = Some Message ->
    (forall e, Message path fs = Raise e -> parse_msg H fs path = Raise e)
    /\ (forall m,
          Message path fs = Ok m ->
          exists hs bt bh atts,
            parse_msg H fs path = Ok (hs, bt, bh, atts)
            /\ dict_keys hs = [lit "From"; lit "To"; lit "Subject"; lit "Date"]
            /\ (blank (m_body m) -> bt = [])
            /\ (forall t, holds_text (m_body m) t -> bt = t)
            /\ (blank (m_htmlBody m) -> bh = [])
            /\ (forall t, holds_text (m_htmlBody m) t -> bh = t)
            /\ map obj atts = map Some (attr_or (m_attachments m) [])
            /\ Forall (fun a => filename a <> [] /\ content_type a = None
                                /\ payload a = None) atts).
Proof.
  intros H Message fs path Hdec. unfold parse_msg. rewrite Hdec. split.
  - intros e ->. reflexivity.
  - intros m ->. cbn [rbind]. eexists _, _, _, _. split; [reflexivity|].
    split; [reflexivity|].
    split; [apply attr_or_blank|]. split; [intros t; apply attr_or_text|].
    split; [apply attr_or_blank|]. split; [intros t; apply attr_or_text|].
    split.
    + rewrite map_map. reflexivity.
    + apply Forall_forall. intros a Ha. apply in_map_iff in Ha.
      destruct Ha as [h [<- _]]. cbn.
      split; [apply handle_name_nonempty | split; reflexivity].
Qed.

Lemma parse_msg_record_shape_witness :
  exists hs atts,
    parse_msg (Posix.host_of Sample.with_logo (Some More.decoder)) Sample.disk
      Sample.outlook
    = Ok (hs, [], lit "<p>hi</p>", atts)
    /\ dict_keys hs = [lit "From"; lit "To"; lit "Subject"; lit "Date"]
    /\ List.length atts = 3.
Proof.
  assert (Hm : More.decoder Sample.outlook Sample.disk = Ok More.outlook_file)
    by (vm_compute; reflexivity).
  pose proof (parse_msg_record_shape
                (Posix.host_of Sample.with_logo (Some More.decoder))
                More.decoder Sample.disk Sample.outlook eq_refl) as [_ Hshape].
  destruct (Hshape More.outlook_file Hm)
    as [hs [bt [bh [atts [E [Hk [Hb [_ [_ [Hh [Ho _]]]]]]]]]]].
  exists hs, atts.
  assert (Hblank : blank (m_body More.outlook_file))
    by (intros t Ht; discriminate Ht).
  assert (Htext : holds_text (m_htmlBody More.outlook_file) (lit "<p>hi</p>"))
    by (split; [reflexivity | discriminate]).
  rewrite (Hb Hblank) in E. rewrite (Hh _ Htext) in E.
  split; [exact E|]. split; [exact Hk|].
  apply (f_equal (@List.length _)) in Ho. rewrite !length_map in Ho. exact Ho.
Defined.

(** X10.  The name of a [.msg] attachment is its long file name when
    that is a non-empty string, otherwise its short file name when that
    is a non-empty string, otherwise the word attachment. *)
Theorem parse_msg_name_priority :
  forall (H : host) (fs : filesystem) (path : str)
         (hs : dict hval) (bt bh : str) (atts : list attachment),
    parse_msg H fs path = Ok (hs, bt, bh, atts) ->
    forall a h,
      In a atts -> obj a = Some h ->
      (forall t, holds_text (h_longFilename h) t -> filename a = t)
      /\ (forall t, blank (h_longFilename h) -> holds_text (h_filename h) t ->
                    filename a = t)
      /\ (blank (h_longFilename h) -> blank (h_filename h) ->
          filename a = lit "attachment").
Proof.
  intros H fs path hs bt bh atts. unfold parse_msg.
  destruct (extract_msg H) as [Message|]; [|discriminate].
  destruct (Message path fs) as [m|e]; cbn [rbind]; [|discriminate].
  intros E a h Ha Ho. injection E as _ _ _ <-.
  apply in_map_iff in Ha. destruct Ha as [h' [<- _]].
  cbn in Ho. injection Ho as ->. cbn [filename]. unfold handle_name.
  split; [|split].
  - intros t Ht. now apply attr_or_text.
  - intros t Hl Hs. rewrite (attr_or_blank _ _ Hl). now apply attr_or_text.
  - intros Hl Hs. rewrite (attr_or_blank _ _ Hl). now apply attr_or_blank.
Qed.

Lemma parse_msg_name_priority_witness :
  exists hs atts,
    parse_msg (Posix.host_of Sample.with_logo (Some More.decoder)) Sample.disk
      Sample.outlook
    = Ok (hs, [], lit "<p>hi</p>", atts)
    /\ map filename atts
       = [lit "long name.txt"; lit "short.txt"; lit "attachment"].
Proof.
  assert (Hparse :
            parse_msg (Posix.host_of Sample.with_logo (Some More.decoder))
              Sample.disk Sample.outlook
            = Ok ([(lit "From", Some (lit "a@x")); (lit "To", None);
                   (lit "Subject", Some []); (lit "Date", Some (lit "today"))],
                  [], lit "<p>hi</p>",
                  map (fun h => {| filename := handle_name h; content_type := None;
                                   payload := None; obj := Some h |})
                    [More.named (Val (lit "long name.txt")) (Val (lit "LONGNA~1.TXT"));
                     More.named PyNone (Val (lit "short.txt"));
                     More.named (Val []) Missing]))
    by (vm_compute; reflexivity).
  eexists _, _. split; [exact Hparse|].
  pose proof (parse_msg_name_priority
                (Posix.host_of Sample.with_logo (Some More.decoder)) Sample.disk
                Sample.outlook _ _ _ _ Hparse) as Hp.
  destruct (Hp _ (More.named (Val (lit "long name.txt")) (Val (lit "LONGNA~1.TXT")))
              (or_introl eq_refl) eq_refl) as [H1 _].
  destruct (Hp _ (More.named PyNone (Val (lit "short.txt")))
              (or_intror (or_introl eq_refl)) eq_refl) as [_ [H2 _]].
  destruct (Hp _ (More.named (Val []) Missing)
              (or_intror (or_intror (or_introl eq_refl))) eq_refl) as [_ [_ H3]].
  assert (T1 : holds_text (Val (lit "long name.txt")) (lit "long name.txt"))
    by (split; [reflexivity | discriminate]).
  assert (T2 : holds_text (Val (lit "short.txt")) (lit "short.txt"))
    by (split; [reflexivity | discriminate]).
  assert (B1 : blank (@PyNone str)) by (intros t Ht; discriminate Ht).
  assert (B2 : blank (Val ([] : str))) by (intros t Ht; now injection Ht as <-).
  assert (B3 : blank (@Missing str)) by (intros t Ht; discriminate Ht).
  cbn [map]. rewrite (H1 _ T1), (H2 _ B1 T2), (H3 B2 B3). reflexivity.
Defined.

(* ================================================================== *)
(** ** More about [open_email] and [_render_loaded_email] *)
(* ================================================================== *)

(** What [open_email] does once the parser is chosen. *)
Lemma open_with_parser (H : host) (path : str) (t : filetype)
    (f : filesystem -> result parsed) (s0 : state) :
  try_except
    (r <- reading f ;; load_parsed H path r t)
    is_Exception
    (fun e =>
       emit (PrintExc e) ;;
       emit (ShowError (lit "Error")
               (lit "Failed to open file:" ++ nl ++ exn_text e))) s0
  = match f (files s0) with
    | Ok r => load_parsed H path r t s0
    | Raise e => (Ok tt, with_log (log s0 ++ open_failed e) s0)
    end.
Proof.
  unfold try_except, bind at 1, reading.
  destruct (f (files s0)) as [r|e].
  - destruct r as [[[hs bt] bh] atts]. reflexivity.
  - unfold is_Exception, bind, emit, open_failed, with_log.
    cbn [log current_path current_meta ui files]. now rewrite <- app_assoc.
Qed.

Lemma open_email_other (H : host) (path : str) (s : state) :
  path <> [] -> extension H path <> lit ".msg" ->
  open_email H path s
  = match parse_eml H (files s) path with
    | Ok r => load_parsed H path r eml (with_path (Some path) s)
    | Raise e =>
        (Ok tt, with_log (log s ++ open_failed e) (with_path (Some path) s))
    end.
Proof.
  intros Hp Hext. unfold open_email.
  destruct path as [|c p]; [congruence|]. cbn [truthy negb].
  unfold bind at 1. fold (extension H (c :: p)).
  rewrite (str_neq_eqb _ _ Hext).
  destruct (str_eqb (extension H (c :: p)) (lit ".eml"));
    apply (open_with_parser H (c :: p) eml
             (fun fs => parse_eml H fs (c :: p)) (with_path (Some (c :: p)) s)).
Qed.

Lemma open_email_msg (H : host) (path : str) (s : state) dec :
  path <> [] -> extension H path = lit ".msg" -> extract_msg H = Some dec ->
  open_email H path s
  = match parse_msg H (files s) path with
    | Ok r => load_parsed H path r msg (with_path (Some path) s)
    | Raise e =>
        (Ok tt, with_log (log s ++ open_failed e) (with_path (Some path) s))
    end.
Proof.
  intros Hp Hext Hdec. unfold open_email.
  destruct path as [|c p]; [congruence|]. cbn [truthy negb].
  unfold bind at 1. fold (extension H (c :: p)).
  rewrite Hext, Hdec. cbn [str_eqb].
  apply (open_with_parser H (c :: p) msg
           (fun fs => parse_msg H fs (c :: p)) (with_path (Some (c :: p)) s)).
Qed.

(** Loading a parsed record cannot fail and touches neither the files
    nor the log. *)
Lemma load_parsed_fields (H : host) (path : str) (r : parsed) (t : filetype)
    (s : state) :
  exists s',
    load_parsed H path r t s = (Ok tt, s')
    /\ current_meta s' = meta_of r t
    /\ current_path s' = current_path s
    /\ files s' = files s
    /\ log s' = log s
    /\ attach_listbox (ui s') = map listbox_line (attachments (meta_of r t))
    /\ status (ui s')
       = lit "Loaded: " ++ os_path_basename H path ++ lit " ("
         ++ upper_name t ++ lit ") -- "
         ++ str_of_nat (List.length (attachments (meta_of r t)))
         ++ lit " attachments".
Proof.
  destruct r as [[[hs bt] bh] atts]. eexists. split; [reflexivity|].
  repeat split; reflexivity.
Qed.

(** X11.  [open_email] never raises and never changes a file, whatever
    the path, the extension and the contents are. *)
Theorem open_email_never_raises :
  forall (H : host) (path : str) (s : state),
    exists s', open_email H path s = (Ok tt, s') /\ files s' = files s.
Proof.
  intros H path s.
  destruct path as [|c p] eqn:Ep; [exists s; split; reflexivity|].
  rewrite <- Ep. assert (Hne : path <> []) by (rewrite Ep; discriminate).
  clear Ep.
  destruct (str_eq_dec (extension H path) (lit ".msg")) as [Hext|Hext].
  - destruct (extract_msg H) as [dec|] eqn:Hdec.
    + rewrite (open_email_msg H path s dec Hne Hext Hdec).
      destruct (parse_msg H (files s) path) as [r|e].
      * destruct (load_parsed_fields H path r msg (with_path (Some path) s))
          as [s' [E [_ [_ [Hf _]]]]].
        exists s'. split; [exact E | exact Hf].
      * eexists. split; reflexivity.
    + unfold open_email. destruct path as [|c' p']; [congruence|].
      cbn [truthy negb]. unfold bind, try_except.
      fold (extension H (c' :: p')). rewrite Hext, Hdec. cbn.
      eexists. split; reflexivity.
  - rewrite (open_email_other H path s Hne Hext).
    destruct (parse_eml H (files s) path) as [r|e].
    + destruct (load_parsed_fields H path r eml (with_path (Some path) s))
        as [s' [E [_ [_ [Hf _]]]]].
      exists s'. split; [exact E | exact Hf].
    + eexists. split; reflexivity.
Qed.

(** X12.  When the parser chosen for the file raises (a missing or
    unreadable file, a part that cannot be decoded, a decoder failure),
    [open_email] prints the traceback and shows one error box, and the
    record loaded before and the widgets stay as they were, although
    [current_path] already names the new file. *)
Theorem open_email_parse_failure :
  forall (H : host) (path : str) (s : state) (e : exn),
    path <> [] ->
    (extension H path <> lit ".msg" /\ parse_eml H (files s) path = Raise e)
    \/ (extension H path = lit ".msg" /\ extract_msg H <> None
        /\ parse_msg H (files s) path = Raise e) ->
    exists s',
      open_email H path s = (Ok tt, s')
      /\ current_meta s' = current_meta s
      /\ ui s' = ui s
      /\ files s' = files s
      /\ log s' = log s ++ open_failed e
      /\ current_path s' = Some path.
Proof.
  intros H path s e Hne [[Hext Hparse] | [Hext [Hdec Hparse]]].
  - rewrite (open_email_other H path s Hne Hext), Hparse.
    eexists. split; [reflexivity|]. repeat split; reflexivity.
  - destruct (extract_msg H) as [dec|] eqn:Ed; [|congruence].
    rewrite (open_email_msg H path s dec Hne Hext Ed), Hparse.
    eexists. split; [reflexivity|]. repeat split; reflexivity.
Qed.

Lemma open_email_parse_failure_witness :
  exists s',
    open_email (Posix.host_of Sample.with_logo None) (lit "/tmp/gone.eml")
      (Sample.state_of (Sample.eml_meta [Sample.eml_att "a.txt" None]))
    = (Ok tt, s')
    /\ current_meta s' = Sample.eml_meta [Sample.eml_att "a.txt" None]
    /\ current_path s' = Some (lit "/tmp/gone.eml").
Proof.
  assert (Hext : extension (Posix.host_of Sample.with_logo None)
                   (lit "/tmp/gone.eml") <> lit ".msg")
    by (vm_compute; discriminate).
  assert (Hparse : parse_eml (Posix.host_of Sample.with_logo None) Sample.disk
                     (lit "/tmp/gone.eml")
                   = Raise (open_error Sample.disk (lit "/tmp/gone.eml")))
    by (vm_compute; reflexivity).
  destruct (open_email_parse_failure (Posix.host_of Sample.with_logo None)
              (lit "/tmp/gone.eml")
              (Sample.state_of (Sample.eml_meta [Sample.eml_att "a.txt" None]))
              _ ltac:(discriminate) (or_introl (conj Hext Hparse)))
    as [s' [E [Hm [_ [_ [_ Hp]]]]]].
  exists s'. split; [exact E|]. split; [exact Hm | exact Hp].
Defined.

(** X13.  When the parser chosen for the file returns a record,
    [open_email] stores it with the format of that parser ([eml] for
    every extension other than .msg, also an unknown one), lists one
    line per attachment, reports the file name, the format and the
    number of attachments in the status line, and shows no message. *)
Theorem open_email_loads_record :
  forall (H : host) (path : str) (s : state) (r : parsed) (t : filetype),
    path <> [] ->
    (extension H path <> lit ".msg" /\ parse_eml H (files s) path = Ok r
     /\ t = eml)
    \/ (extension H path = lit ".msg" /\ extract_msg H <> None
        /\ parse_msg H (files s) path = Ok r /\ t = msg) ->
    exists s',
      open_email H path s = (Ok tt, s')
      /\ current_meta s' = meta_of r t
      /\ current_path s' = Some path
      /\ files s' = files s
      /\ log s' = log s
      /\ attach_listbox (ui s') = map listbox_line (attachments (meta_of r t))
      /\ status (ui s')
         = lit "Loaded: " ++ os_path_basename H path ++ lit " ("
           ++ upper_name t ++ lit ") -- "
           ++ str_of_nat (List.length (attachments (meta_of r t)))
           ++ lit " attachments".
Proof.
  intros H path s r t Hne [[Hext [Hparse ->]] | [Hext [Hdec [Hparse ->]]]].
  - rewrite (open_email_other H path s Hne Hext), Hparse.
    apply (load_parsed_fields H path r eml (with_path (Some path) s)).
  - destruct (extract_msg H) as [dec|] eqn:Ed; [|congruence].
    rewrite (open_email_msg H path s dec Hne Hext Ed), Hparse.
    apply (load_parsed_fields H path r msg (with_path (Some path) s)).
Qed.

Lemma open_email_loads_record_witness :
  exists s',
    open_email (Posix.host_of Sample.with_logo None) (lit "/tmp/mail")
      (More.state2 empty_meta) = (Ok tt, s')
    /\ type (current_meta s') = Some eml
    /\ status (ui s') = lit "Loaded: mail (EML) -- 2 attachments".
Proof.
  assert (Hext : extension (Posix.host_of Sample.with_logo None)
                   (lit "/tmp/mail") <> lit ".msg")
    by (vm_compute; discriminate).
  assert (Hparse :
            parse_eml (Posix.host_of Sample.with_logo None) More.disk2
              (lit "/tmp/mail")
            = Ok ([], lit "hello", lit "<p>hello</p>",
                  map attachment_of_part [Sample.inline_logo; Sample.nameless]))
    by (vm_compute; reflexivity).
  destruct (open_email_loads_record (Posix.host_of Sample.with_logo None)
              (lit "/tmp/mail") (More.state2 empty_meta)
              _ eml ltac:(discriminate)
              (or_introl (conj Hext (conj Hparse eq_refl))))
    as [s' [E [Hm [_ [_ [_ [_ Hs]]]]]]].
  exists s'. split; [exact E|]. split.
  - rewrite Hm. reflexivity.
  - rewrite Hs. vm_compute. reflexivity.
Defined.

(** X14.  [_render_loaded_email] never fails and changes only the
    widgets, leaving the status line alone.  The body widget shows the
    plain text whenever there is one; only without plain text does it
    show the HTML, converted when the converter is installed and
    otherwise behind a notice.  The list has one line per attachment,
    and the raw widget shows a placeholder when the file cannot be read. *)
Theorem render_loaded_email_rules :
  forall (H : host) (s : state),
    exists s',
      _render_loaded_email H s = (Ok tt, s')
      /\ (current_meta s' = current_meta s /\ current_path s' = current_path s
          /\ files s' = files s /\ log s' = log s
          /\ status (ui s') = status (ui s))
      /\ (body_text (current_meta s) <> [] ->
          body_text_widget (ui s') = body_text (current_meta s))
      /\ (body_text (current_meta s) = [] -> body_html (current_meta s) = [] ->
          body_text_widget (ui s') = [])
      /\ (body_text (current_meta s) = [] -> body_html (current_meta s) <> [] ->
          match BeautifulSoup H with
          | Some get_text =>
              body_text_widget (ui s') = get_text (body_html (current_meta s))
          | None =>
              body_text_widget (ui s')
              = html_notice ++ nl ++ nl ++ body_html (current_meta s)
          end)
      /\ List.length (attach_listbox (ui s'))
         = List.length (attachments (current_meta s))
      /\ ((forall p, current_path s = Some p ->
                     exists e, read_file (files s) p = Raise e) ->
          raw_text (ui s') = lit "(unable to load raw)")
      /\ (forall p b, current_path s = Some p -> read_file (files s) p = Ok b ->
                      raw_text (ui s') = decode_replace H b).
Proof.
  intros H s. eexists. split; [reflexivity|].
  cbn [ui with_ui current_meta current_path files log status body_text_widget
       attach_listbox raw_text].
  split; [repeat split; reflexivity|].
  split.
  { intros Hbt. destruct (body_text (current_meta s)); [congruence | reflexivity]. }
  split.
  { intros -> ->. reflexivity. }
  split.
  { intros -> Hh. destruct (body_html (current_meta s)); [congruence|].
    cbn [truthy negb andb]. destruct (BeautifulSoup H); reflexivity. }
  split; [apply length_map|].
  split.
  - intros Hp. destruct (current_path s) as [p|]; [|reflexivity].
    destruct (Hp p eq_refl) as [e ->]. reflexivity.
  - intros p b -> ->. reflexivity.
Qed.

(* ================================================================== *)
(** ** More about saving attachments *)
(* ================================================================== *)

Lemma save_one_eml_unfold (H : host) (dest : str) (a : attachment) (k : nat)
    (s : state) :
  save_one H (Some eml) dest a k s
  = match files s (eml_target H dest a k) with
    | Some NoAccess =>
        (Ok k,
         with_log (log s ++ save_failed
                     (open_error (files s) (eml_target H dest a k))) s)
    | _ =>
        (Ok (S k),
         with_files (fs_put (eml_target H dest a k)
                       (File (opt_or (payload a) [])) (files s)) s)
    end.
Proof.
  rewrite save_one_of_body. unfold save_body, bind.
  fold (eml_target H dest a k).
  destruct (open_wb_write_cases (eml_target H dest a k) (opt_or (payload a) []) s)
    as [[Hno E] | [Hok E]]; rewrite E.
  - rewrite Hno. reflexivity.
  - destruct (files s (eml_target H dest a k)) as [[b|]|];
      [reflexivity | congruence | reflexivity].
Qed.

(** The loop on [.eml] attachments changes no file other than the
    targets. *)
Lemma save_loop_eml_frame (H : host) (dest : str) (l : list attachment) :
  forall k s r s' q,
    save_loop H (Some eml) dest l k s = (r, s') ->
    (forall a j, In a l -> q <> eml_target H dest a j) ->
    files s' q = files s q
    /\ current_meta s' = current_meta s /\ current_path s' = current_path s.
Proof.
  induction l as [|a l IH]; intros k s r s' q E Hq.
  - cbn in E. injection E as _ <-. repeat split; reflexivity.
  - cbn [save_loop] in E. unfold bind in E. rewrite save_one_eml_unfold in E.
    assert (Hq' : forall a0 j, In a0 l -> q <> eml_target H dest a0 j)
      by (intros a0 j Ha0; apply Hq; now right).
    destruct (files s (eml_target H dest a k)) as [[b|]|] eqn:Ef;
      destruct (IH _ _ _ _ q E Hq') as [Hf [Hm Hp]];
      rewrite Hf, Hm, Hp; cbn [files with_files with_log current_meta current_path];
      repeat split; try reflexivity;
      apply fs_put_other, Hq; now left.
Qed.

(** When every target can be opened, every [.eml] attachment is saved. *)
Lemma save_loop_eml_all (H : host) (dest : str) (l : list attachment) :
  forall k s,
    (forall a j, In a l -> files s (eml_target H dest a j) <> Some NoAccess) ->
    exists s',
      save_loop H (Some eml) dest l k s = (Ok (k + List.length l), s')
      /\ log s' = log s /\ ui s' = ui s
      /\ (forall q, files s q <> Some NoAccess -> files s' q <> Some NoAccess)
      /\ (forall q b, files s q = Some (File b) ->
                      exists b', files s' q = Some (File b'))
      /\ (forall a, In a l ->
                    exists j b, files s' (eml_target H dest a j) = Some (File b)).
Proof.
  induction l as [|a l IH]; intros k s Hopen.
  - exists s. cbn. rewrite Nat.add_0_r.
    repeat split; auto; [eauto | intros a []].
  - cbn [save_loop]. unfold bind. rewrite save_one_eml_unfold.
    pose proof (Hopen a k (or_introl eq_refl)) as Hk.
    set (s1 := with_files (fs_put (eml_target H dest a k)
                             (File (opt_or (payload a) [])) (files s)) s).
    assert (Hkeep : forall q, files s q <> Some NoAccess ->
                              files s1 q <> Some NoAccess).
    { intros q Hq. unfold s1. cbn [files with_files]. unfold fs_put. cbn [entry].
      destruct (str_eqb q (eml_target H dest a k)); [discriminate | exact Hq]. }
    destruct (IH (S k) s1) as [s' [E [Hl [Hu [Hna [Hfile Hall]]]]]].
    { intros a0 j Ha0. apply Hkeep, Hopen. now right. }
    exists s'.
    assert (Hstep : match files s (eml_target H dest a k) with
                    | Some NoAccess =>
                        (Ok k, with_log (log s ++ save_failed
                                   (open_error (files s) (eml_target H dest a k))) s)
                    | _ => (Ok (S k), s1)
                    end = (Ok (S k), s1)).
    { destruct (files s (eml_target H dest a k)) as [[b|]|];
        [reflexivity | congruence | reflexivity]. }
    fold s1. rewrite Hstep, E. cbn [List.length].
    split; [f_equal; f_equal; lia|]. split; [exact Hl|]. split; [exact Hu|].
    split; [intros q Hq; apply Hna, Hkeep, Hq|]. split.
    + intros q b Hq. unfold s1 in Hfile. cbn [files with_files] in Hfile.
      destruct (str_eqb q (eml_target H dest a k)) eqn:Eq.
      * apply (Hfile q (opt_or (payload a) [])). unfold fs_put. cbn [entry].
        now rewrite Eq.
      * apply (Hfile q b). unfold fs_put. cbn [entry]. now rewrite Eq.
    + intros a0 [<- | Ha0]; [|now apply Hall].
      destruct (Hfile (eml_target H dest a k) (opt_or (payload a) [])) as [b' Hb'].
      { unfold s1. cbn [files with_files]. apply fs_put_same. }
      exists k, b'. exact Hb'.
Qed.

Lemma extract_attachments_unfold (H : host) (dest : str) (s : state) :
  attachments (current_meta s) <> [] -> dest <> [] ->
  extract_attachments H dest s
  = match save_loop H (type (current_meta s)) dest
            (attachments (current_meta s)) 0 s with
    | (Ok n, s1) =>
        (set_status (lit "Saved " ++ str_of_nat n ++ lit " attachment(s) to "
                     ++ dest))
          (with_log (log s1 ++ [done_message n dest]) s1)
    | (Raise e, s1) => (Raise e, s1)
    end.
Proof.
  intros Ha Hd. unfold extract_attachments.
  destruct (attachments (current_meta s)) as [|a l]; [congruence|].
  destruct dest as [|c d]; [congruence|]. cbn [truthy negb].
  unfold bind at 1.
  destruct (save_loop H (type (current_meta s)) (c :: d) (a :: l) 0 s)
    as [[n|e] s1]; reflexivity.
Qed.

(** X15.  [extract_attachments] never raises.  Without attachments it
    only shows an information box, and when the directory dialog is
    cancelled it does nothing at all. *)
Theorem extract_attachments_guards :
  forall (H : host) (dest : str) (s : state),
    (exists s', extract_attachments H dest s = (Ok tt, s'))
    /\ (attachments (current_meta s) = [] ->
        extract_attachments H dest s
        = (Ok tt,
           with_log (log s ++ [ShowInfo (lit "No attachments")
                      (lit "No attachments were found in the loaded message.")])
             s))
    /\ (attachments (current_meta s) <> [] -> dest = [] ->
        extract_attachments H dest s = (Ok tt, s)).
Proof.
  intros H dest s.
  assert (Hnone : attachments (current_meta s) = [] ->
                  extract_attachments H dest s
                  = (Ok tt,
                     with_log (log s ++ [ShowInfo (lit "No attachments")
                        (lit "No attachments were found in the loaded message.")])
                       s)).
  { intros E. unfold extract_attachments. rewrite E. reflexivity. }
  assert (Hcancel : attachments (current_meta s) <> [] -> dest = [] ->
                    extract_attachments H dest s = (Ok tt, s)).
  { intros Ha ->. unfold extract_attachments.
    destruct (attachments (current_meta s)); [congruence | reflexivity]. }
  split; [|split; assumption].
  destruct (attachments (current_meta s)) as [|a l] eqn:Ea.
  - eexists. apply Hnone. reflexivity.
  - destruct dest as [|c d].
    + eexists. apply Hcancel; [discriminate | reflexivity].
    + rewrite extract_attachments_unfold by (rewrite ?Ea; discriminate).
      destruct (save_loop_total H (type (current_meta s)) (c :: d)
                  (attachments (current_meta s)) 0 s) as [n [s1 [ev [E _]]]].
      rewrite E. eexists. reflexivity.
Qed.

(** X16.  Saving all attachments of an [.eml] message changes no file
    other than the paths built from the destination and the sanitized
    attachment names, and leaves the loaded record alone. *)
Theorem extract_attachments_eml_frame :
  forall (H : host) (dest : str) (s s' : state) (r : result unit) (q : str),
    type (current_meta s) = Some eml ->
    extract_attachments H dest s = (r, s') ->
    (forall a k, In a (attachments (current_meta s)) ->
                 q <> eml_target H dest a k) ->
    files s' q = files s q /\ current_meta s' = current_meta s.
Proof.
  intros H dest s s' r q Hty E Hq.
  destruct (attachments (current_meta s)) as [|a l] eqn:Ea.
  - unfold extract_attachments in E. rewrite Ea in E. cbn in E.
    injection E as _ <-. split; reflexivity.
  - destruct dest as [|c d].
    + unfold extract_attachments in E. rewrite Ea in E. cbn in E.
      injection E as _ <-. split; reflexivity.
    + rewrite extract_attachments_unfold in E by (rewrite ?Ea; discriminate).
      rewrite Hty, Ea in E.
      destruct (save_loop H (Some eml) (c :: d) (a :: l) 0 s) as [[n|e] s1] eqn:El;
        destruct (save_loop_eml_frame H (c :: d) (a :: l) 0 s _ s1 q El Hq)
          as [Hf [Hm _]].
      * cbn in E. injection E as _ <-. cbn. split; assumption.
      * injection E as _ <-. split; assumption.
Qed.

Lemma extract_attachments_eml_frame_witness :
  exists s',
    extract_attachments (Posix.host_of Sample.with_logo None) Sample.out
      (Sample.state_of (Sample.eml_meta [Sample.eml_att "a.txt" (Some Sample.png)]))
    = (Ok tt, s')
    /\ files s' Sample.mail = Some (File []).
Proof.
  eexists. split; [vm_compute; reflexivity|].
  refine (eq_trans (proj1 (extract_attachments_eml_frame
            (Posix.host_of Sample.with_logo None) Sample.out
            (Sample.state_of (Sample.eml_meta [Sample.eml_att "a.txt" (Some Sample.png)]))
            _ (Ok tt) Sample.mail eq_refl _ _)) _).
  - vm_compute. reflexivity.
  - intros a k [<- | []]. vm_compute. discriminate.
  - reflexivity.
Defined.

(** X17.  When every target path of an [.eml] message can be opened,
    all its attachments are saved: the closing message and the status
    line report their number, no warning is shown, and a file exists at
    the target of each of them. *)
Theorem extract_attachments_eml_all_saved :
  forall (H : host) (dest : str) (s : state),
    type (current_meta s) = Some eml ->
    attachments (current_meta s) <> [] -> dest <> [] ->
    (forall a k, In a (attachments (current_meta s)) ->
                 files s (eml_target H dest a k) <> Some NoAccess) ->
    let n := List.length (attachments (current_meta s)) in
    exists s',
      extract_attachments H dest s = (Ok tt, s')
      /\ log s' = log s ++ [done_message n dest]
      /\ status (ui s')
         = lit "Saved " ++ str_of_nat n ++ lit " attachment(s) to " ++ dest
      /\ (forall a, In a (attachments (current_meta s)) ->
                    exists k b, files s' (eml_target H dest a k) = Some (File b)).
Proof.
  intros H dest s Hty Ha Hd Hopen n.
  rewrite (extract_attachments_unfold H dest s Ha Hd), Hty.
  destruct (save_loop_eml_all H dest (attachments (current_meta s)) 0 s Hopen)
    as [s1 [E [Hl [_ [_ [_ Hall]]]]]].
  rewrite E. cbn [Nat.add]. fold n. eexists. split; [reflexivity|].
  cbn [log ui status files with_ui with_log]. rewrite Hl.
  split; [reflexivity|]. split; [reflexivity | exact Hall].
Qed.

Lemma extract_attachments_eml_all_saved_witness :
  exists s',
    extract_attachments (Posix.host_of Sample.with_logo None) Sample.out
      (Sample.state_of
         (Sample.eml_meta [Sample.eml_att "a.txt" None;
                           Sample.eml_att "b:c" (Some Sample.png)]))
    = (Ok tt, s')
    /\ status (ui s') = lit "Saved 2 attachment(s) to /out".
Proof.
  destruct (extract_attachments_eml_all_saved
              (Posix.host_of Sample.with_logo None) Sample.out
              (Sample.state_of
                 (Sample.eml_meta [Sample.eml_att "a.txt" None;
                                   Sample.eml_att "b:c" (Some Sample.png)]))
              eq_refl ltac:(discriminate) ltac:(discriminate))
    as [s' [E [_ [Hs _]]]].
  - intros a k [<- | [<- | []]]; vm_compute; discriminate.
  - exists s'. split; [exact E|]. rewrite Hs. vm_compute. reflexivity.
Defined.

(** X18.  Two [.eml] attachments whose names sanitize to the same name
    are written to the same path: both are counted as saved, and the
    file holds the payload of the second one only. *)
Theorem extract_same_name_overwrites :
  forall (H : host) (dest : str) (a b : attachment) (k : nat) (s : state),
    filename a <> [] -> filename b <> [] ->
    _sanitize_filename (filename a) = _sanitize_filename (filename b) ->
    files s (eml_target H dest a k) <> Some NoAccess ->
    exists s',
      save_loop H (Some eml) dest [a; b] k s = (Ok (k + 2), s')
      /\ eml_target H dest b (S k) = eml_target H dest a k
      /\ files s' (eml_target H dest a k) = Some (File (opt_or (payload b) []))
      /\ (forall q, q <> eml_target H dest a k -> files s' q = files s q)
      /\ log s' = log s.
Proof.
  intros H dest a b k s Hna Hnb Hsame Hopen.
  assert (Hfa : forall j, eml_fname a j = filename a).
  { intros j. unfold eml_fname, or_else. destruct (filename a); [congruence | reflexivity]. }
  assert (Hfb : forall j, eml_fname b j = filename b).
  { intros j. unfold eml_fname, or_else. destruct (filename b); [congruence | reflexivity]. }
  assert (Ht : eml_target H dest b (S k) = eml_target H dest a k).
  { unfold eml_target. now rewrite Hfa, Hfb, Hsame. }
  cbn [save_loop]. unfold bind. rewrite save_one_eml_unfold.
  set (t := eml_target H dest a k) in *.
  replace (k + 2) with (S (S k)) by lia.
  destruct (files s t) as [[c|]|] eqn:Ef; try congruence;
    rewrite save_one_eml_unfold, Ht; cbn [files with_files];
    rewrite fs_put_same; cbv beta iota delta [ret];
    (eexists; split; [reflexivity|]; split; [reflexivity|];
     cbn [files with_files log]; split; [apply fs_put_same|];
     split; [|reflexivity];
     intros q Hq; now rewrite !fs_put_other by exact Hq).
Qed.

Lemma extract_same_name_overwrites_witness :
  exists s',
    save_loop (Posix.host_of Sample.with_logo None) (Some eml) Sample.out
      [Sample.eml_att "a:b.txt" (Some []); Sample.eml_att "ab.txt" (Some Sample.png)]
      0 (Sample.state_of (Sample.eml_meta []))
    = (Ok 2, s')
    /\ files s' (lit "/out/ab.txt") = Some (File Sample.png).
Proof.
  destruct (extract_same_name_overwrites
              (Posix.host_of Sample.with_logo None) Sample.out
              (Sample.eml_att "a:b.txt" (Some []))
              (Sample.eml_att "ab.txt" (Some Sample.png)) 0
              (Sample.state_of (Sample.eml_meta []))
              ltac:(discriminate) ltac:(discriminate) eq_refl
              ltac:(vm_compute; discriminate))
    as [s' [E [_ [Hf _]]]].
  exists s'. split; [exact E | exact Hf].
Defined.

Lemma raw_buffer_blank (o : option att_handle) :
  (forall h, o = Some h -> blank (h_data h) /\ blank (h_payload h)) ->
  raw_buffer o = None.
Proof.
  intros Hb. destruct o as [h|]; [|reflexivity].
  destruct (Hb h eq_refl) as [Hd Hp]. unfold raw_buffer.
  rewrite (attr_or_blank _ _ Hd), (attr_or_blank _ _ Hp). reflexivity.
Qed.

(** X19.  A [.msg] attachment whose handle has no [save] and whose
    [data] and [payload] are missing, [None] or empty (a zero-length
    attachment, say) cannot be saved: the loop shows the warning that
    names it and does not count it, and saving it as the selected
    attachment raises the RuntimeError; no file is written either way. *)
Theorem msg_attachment_without_bytes :
  forall a : attachment,
    has_save (obj a) = None ->
    (forall h, obj a = Some h -> blank (h_data h) /\ blank (h_payload h)) ->
    (forall (H : host) (dest : str) (saved : nat) (name : str) (s : state),
        msg_fname a = Some name ->
        save_one H (Some msg) dest a saved s
        = (Ok saved,
           with_log (log s ++ [ShowWarning (lit "Warning")
                                 (lit "Could not save attachment: " ++ name)]) s))
    /\ (forall (dest_file : str) (s : state),
          save_selected_body (Some msg) a dest_file s
          = (Raise (Exn RuntimeError (lit "Attachment object not writable")), s)).
Proof.
  intros a Hsave Hblank. pose proof (raw_buffer_blank (obj a) Hblank) as Hraw.
  split.
  - intros H dest saved name s Hname.
    rewrite save_one_of_body, (save_one_msg_unfold H dest a saved name s Hname).
    rewrite Hsave, Hraw. reflexivity.
  - intros dest_file s. unfold save_selected_body, bind.
    rewrite Hsave, Hraw. reflexivity.
Qed.

Lemma msg_attachment_without_bytes_witness :
  save_one (Posix.host_of Sample.with_logo None) (Some msg) Sample.out
    (Sample.msg_att "empty.bin" (Sample.handle None (Val []))) 0
    (Sample.state_of (Sample.msg_meta []))
  = (Ok 0,
     with_log [ShowWarning (lit "Warning")
                 (lit "Could not save attachment: " ++ lit "empty.bin")]
       (Sample.state_of (Sample.msg_meta []))).
Proof.
  refine (proj1 (msg_attachment_without_bytes
                   (Sample.msg_att "empty.bin" (Sample.handle None (Val [])))
                   eq_refl _) _ _ _ _ _ eq_refl).
  intros h Hh. injection Hh as <-. split; intros t Ht.
  - now injection Ht as <-.
  - discriminate Ht.
Defined.

(* ================================================================== *)
(** ** More about [save_selected_attachment] *)
(* ================================================================== *)

Lemma save_selected_unfold (idx : nat) (rest : list nat) (dest_file : str)
    (a : attachment) (s : state) :
  nth_error (attachments (current_meta s)) idx = Some a ->
  dest_file <> [] ->
  save_selected_attachment (idx :: rest) dest_file s
  = match save_selected_body (type (current_meta s)) a dest_file s with
    | (Ok u, s1) => (Ok u, s1)
    | (Raise e, s1) => (Ok tt, with_log (log s1 ++ selected_failed e) s1)
    end.
Proof.
  intros Hn Hd. unfold save_selected_attachment. rewrite Hn.
  destruct dest_file as [|c d]; [congruence|]. cbn [truthy negb].
  unfold try_except.
  destruct (save_selected_body (type (current_meta s)) a (c :: d) s)
    as [[u|e] s1]; [reflexivity|].
  unfold is_Exception, bind, emit, selected_failed, with_log.
  cbn [log current_path current_meta ui files]. now rewrite <- app_assoc.
Qed.

(** X20.  [save_selected_attachment] never raises.  With nothing
    selected it asks for a selection, with an index past the end of the
    list it reports an index error, and when the save dialog is cancelled
    it does nothing; only the first selected index is used. *)
Theorem save_selected_attachment_guards :
  forall (sel : list nat) (dest_file : str) (s : state),
    (exists s1, save_selected_attachment sel dest_file s = (Ok tt, s1))
    /\ (sel = [] ->
        save_selected_attachment sel dest_file s
        = (Ok tt,
           with_log (log s ++ [ShowInfo (lit "Select")
             (lit "Select an attachment from the list first (double-click to save).")])
             s))
    /\ (forall idx rest,
          sel = idx :: rest ->
          List.length (attachments (current_meta s)) <= idx ->
          save_selected_attachment sel dest_file s
          = (Ok tt,
             with_log (log s ++ [ShowError (lit "Index error")
                                   (lit "Selected index out of range.")]) s))
    /\ (forall idx rest,
          sel = idx :: rest ->
          idx < List.length (attachments (current_meta s)) ->
          dest_file = [] ->
          save_selected_attachment sel dest_file s = (Ok tt, s))
    /\ (forall idx rest other,
          save_selected_attachment (idx :: rest) dest_file s
          = save_selected_attachment (idx :: other) dest_file s).
Proof.
  intros sel dest_file s.
  assert (Hout : forall idx rest,
             sel = idx :: rest ->
             List.length (attachments (current_meta s)) <= idx ->
             save_selected_attachment sel dest_file s
             = (Ok tt,
                with_log (log s ++ [ShowError (lit "Index error")
                                      (lit "Selected index out of range.")]) s)).
  { intros idx rest -> Hle. unfold save_selected_attachment.
    apply nth_error_None in Hle. rewrite Hle. reflexivity. }
  assert (Hcancel : forall idx rest,
             sel = idx :: rest ->
             idx < List.length (attachments (current_meta s)) ->
             dest_file = [] ->
             save_selected_attachment sel dest_file s = (Ok tt, s)).
  { intros idx rest -> Hlt ->. unfold save_selected_attachment.
    destruct (nth_error (attachments (current_meta s)) idx) eqn:En;
      [reflexivity|].
    apply nth_error_None in En. lia. }
  split; [|split; [intros ->; reflexivity | split; [exact Hout | split;
            [exact Hcancel | reflexivity]]]].
  destruct sel as [|idx rest]; [eexists; reflexivity|].
  destruct (nth_error (attachments (current_meta s)) idx) as [a|] eqn:En.
  - destruct dest_file as [|c d].
    + exists s. apply (Hcancel idx rest eq_refl); [|reflexivity].
      apply nth_error_Some. congruence.
    + rewrite (save_selected_unfold idx rest (c :: d) a s En) by discriminate.
      destruct (save_selected_body (type (current_meta s)) a (c :: d) s)
        as [[[]|e] s1]; eexists; reflexivity.
  - eexists. apply (Hout idx rest eq_refl). now apply nth_error_None.
Qed.

(** X21.  Saving the selected attachment of an [.eml] message writes
    its payload (nothing for an absent payload) to exactly the chosen
    path, which is not sanitized, changes no other file and reports the
    path; when the path cannot be opened nothing is written and an error
    box showing the OSError of the failed [open] is shown instead. *)
Theorem save_selected_eml_attachment :
  forall (idx : nat) (rest : list nat) (dest_file : str) (a : attachment)
         (s : state),
    type (current_meta s) = Some eml ->
    nth_error (attachments (current_meta s)) idx = Some a ->
    dest_file <> [] ->
    (files s dest_file <> Some NoAccess ->
     exists s1,
       save_selected_attachment (idx :: rest) dest_file s = (Ok tt, s1)
       /\ files s1 dest_file = Some (File (opt_or (payload a) []))
       /\ (forall q, q <> dest_file -> files s1 q = files s q)
       /\ log s1 = log s ++ [saved_message dest_file])
    /\ (files s dest_file = Some NoAccess ->
        save_selected_attachment (idx :: rest) dest_file s
        = (Ok tt,
           with_log (log s ++ selected_failed (open_error (files s) dest_file))
             s)).
Proof.
  intros idx rest dest_file a s Hty Hn Hd.
  rewrite (save_selected_unfold idx rest dest_file a s Hn Hd), Hty.
  unfold save_selected_body, bind.
  destruct (open_wb_write_cases dest_file (opt_or (payload a) []) s)
    as [[Hno E] | [Hok E]]; rewrite E; split.
  - intros Hok. contradiction.
  - intros _. reflexivity.
  - intros _. eexists. split; [reflexivity|].
    cbn [files log with_files with_log emit fst snd].
    split; [apply fs_put_same|]. split; [|reflexivity].
    intros q Hq. now apply fs_put_other.
  - intros Hno. contradiction.
Qed.

Lemma save_selected_eml_attachment_witness :
  exists s1,
    save_selected_attachment [1; 0] (lit "/out/x:y")
      (Sample.state_of
         (Sample.eml_meta [Sample.eml_att "a.txt" None;
                           Sample.eml_att "b.png" (Some Sample.png)]))
    = (Ok tt, s1)
    /\ files s1 (lit "/out/x:y") = Some (File Sample.png).
Proof.
  destruct (proj1 (save_selected_eml_attachment 1 [0] (lit "/out/x:y")
                     (Sample.eml_att "b.png" (Some Sample.png))
                     (Sample.state_of
                        (Sample.eml_meta [Sample.eml_att "a.txt" None;
                                          Sample.eml_att "b.png" (Some Sample.png)]))
                     eq_refl eq_refl ltac:(discriminate))
              ltac:(vm_compute; discriminate)) as [s1 [E [Hf _]]].
  exists s1. split; [exact E | exact Hf].
Defined.

(* ================================================================== *)
(** ** [save_body_as_txt] and [open_html_in_browser] *)
(* ================================================================== *)

Lemma save_body_as_txt_unfold (H : host) (io : text_io) (path : str) (s : state) :
  body_for_txt H (current_meta s) <> [] -> path <> [] ->
  save_body_as_txt H io path s
  = match files s path with
    | Some NoAccess => (Raise (open_error (files s) path), s)
    | _ => (Ok tt, txt_saved io path (body_for_txt H (current_meta s)) s)
    end.
Proof.
  intros Hb Hp. unfold save_body_as_txt.
  destruct (body_for_txt H (current_meta s)) as [|c b] eqn:Eb; [congruence|].
  destruct path as [|d p]; [congruence|]. cbn [truthy negb]. unfold bind.
  destruct (open_wb_write_cases (d :: p) (write_text io (c :: b)) s)
    as [[Hno E] | [Hok E]]; rewrite E.
  - rewrite Hno. reflexivity.
  - destruct (files s (d :: p)) as [[x|]|]; [reflexivity | congruence | reflexivity].
Qed.

(** X22.  What [save_body_as_txt] writes to a path that can be opened:
    the plain-text body whenever there is one, whatever the HTML body
    is; without plain text, the converted HTML when the converter is
    installed, and otherwise a notice asking to install it, never the
    HTML itself. *)
Theorem save_body_as_txt_writes :
  forall (H : host) (io : text_io) (path : str) (s : state),
    path <> [] ->
    files s path <> Some NoAccess ->
    let m := current_meta s in
    (body_text m <> [] ->
     save_body_as_txt H io path s = (Ok tt, txt_saved io path (body_text m) s))
    /\ (body_text m = [] -> body_html m <> [] -> BeautifulSoup H = None ->
        save_body_as_txt H io path s
        = (Ok tt, txt_saved io path install_notice s))
    /\ (forall get_text,
          body_text m = [] -> body_html m <> [] ->
          BeautifulSoup H = Some get_text -> get_text (body_html m) <> [] ->
          save_body_as_txt H io path s
          = (Ok tt, txt_saved io path (get_text (body_html m)) s)).
Proof.
  intros H io path s Hp Hopen m.
  assert (Hw : forall text,
             body_for_txt H m = text -> text <> [] ->
             save_body_as_txt H io path s = (Ok tt, txt_saved io path text s)).
  { intros text Eb Hne. subst text.
    rewrite (save_body_as_txt_unfold H io path s Hne Hp). fold m.
    destruct (files s path) as [[x|]|]; [reflexivity | congruence | reflexivity]. }
  split; [|split].
  - intros Hbt. apply Hw; [|exact Hbt]. unfold body_for_txt, or_else.
    destruct (body_text m); [congruence | reflexivity].
  - intros Hbt Hbh Hbs. apply Hw; [|discriminate]. unfold body_for_txt, or_else.
    rewrite Hbt, Hbs. destruct (body_html m); [congruence | reflexivity].
  - intros get_text Hbt Hbh Hbs Hne. apply Hw; [|exact Hne].
    unfold body_for_txt, or_else.
    rewrite Hbt, Hbs. destruct (body_html m); [congruence | reflexivity].
Qed.

Lemma save_body_as_txt_writes_witness :
  save_body_as_txt (Posix.host_of Sample.with_logo None) More.io
    (lit "/out/body.txt")
    (Sample.state_of (More.loaded "" "<p>hi</p>" [] eml))
  = (Ok tt,
     txt_saved More.io (lit "/out/body.txt") install_notice
       (Sample.state_of (More.loaded "" "<p>hi</p>" [] eml))).
Proof.
  apply (proj1 (proj2 (save_body_as_txt_writes
                         (Posix.host_of Sample.with_logo None) More.io
                         (lit "/out/body.txt")
                         (Sample.state_of (More.loaded "" "<p>hi</p>" [] eml))
                         ltac:(discriminate) ltac:(vm_compute; discriminate))));
    [reflexivity | discriminate | reflexivity].
Defined.

(** X23.  When [save_body_as_txt] writes nothing: with neither body it
    shows an information box, and when the dialog is cancelled it does
    nothing.  A path that cannot be opened is not handled: the OSError
    of the failed [open] is raised out of the method, with no message and
    no change. *)
Theorem save_body_as_txt_refusals :
  forall (H : host) (io : text_io) (path : str) (s : state),
    let m := current_meta s in
    (body_text m = [] -> body_html m = [] ->
     save_body_as_txt H io path s
     = (Ok tt, with_log (log s ++ [no_body_message]) s))
    /\ (body_for_txt H m <> [] -> path = [] ->
        save_body_as_txt H io path s = (Ok tt, s))
    /\ (body_for_txt H m <> [] -> path <> [] ->
        files s path = Some NoAccess ->
        save_body_as_txt H io path s
        = (Raise (open_error (files s) path), s)).
Proof.
  intros H io path s m. split; [|split].
  - intros Hbt Hbh. unfold save_body_as_txt, body_for_txt, or_else. fold m.
    rewrite Hbt, Hbh. reflexivity.
  - intros Hb ->. unfold save_body_as_txt. fold m.
    destruct (body_for_txt H m); [congruence | reflexivity].
  - intros Hb Hp Hno. rewrite (save_body_as_txt_unfold H io path s Hb Hp), Hno.
    reflexivity.
Qed.

(** X24.  [open_html_in_browser] opens the browser exactly when there is
    an HTML body and the temporary file could be created; the address is
    that of the temporary file, which then holds the whole HTML body, no
    other file changes and no message is shown.  Without an HTML body it
    only shows an information box. *)
Theorem open_html_in_browser_opens :
  forall (io : text_io) (s : state),
    let html := body_html (current_meta s) in
    (forall url s1,
        open_html_in_browser io s = (Ok (Some url), s1)
        <-> html <> []
            /\ exists tmp,
                 mkstemp_html io (files s) = Ok tmp
                 /\ url = lit "file://" ++ tmp
                 /\ s1 = with_files
                           (fs_put tmp (File (write_text io html)) (files s)) s)
    /\ (html = [] ->
        open_html_in_browser io s
        = (Ok None, with_log (log s ++ [no_html_message]) s)).
Proof.
  intros io s html. split.
  - intros url s1. unfold open_html_in_browser, or_else. fold html.
    destruct html as [|c h] eqn:Eh.
    + cbn. split; [discriminate | intros [F _]; congruence].
    + cbn [truthy negb]. unfold bind, reading.
      destruct (mkstemp_html io (files s)) as [tmp|e]; cbn [ret].
      * split.
        -- intros E. injection E as <- <-. split; [discriminate|].
           exists tmp. repeat split; reflexivity.
        -- intros [_ [tmp' [Et [-> ->]]]]. injection Et as <-. reflexivity.
      * split; [discriminate | intros [_ [tmp' [Et _]]]; discriminate].
  - intros Eh. unfold open_html_in_browser, or_else. fold html. rewrite Eh.
    reflexivity.
Qed.

(** X25.  On a freshly started application nothing can be saved: all
    four actions only show a message and leave every file as it is. *)
Theorem fresh_application_saves_nothing :
  forall (H : host) (io : text_io) (fs : filesystem)
         (dest dest_file path : str) (sel : list nat),
    let s := initial_state fs in
    extract_attachments H dest s
    = (Ok tt,
       with_log [ShowInfo (lit "No attachments")
                   (lit "No attachments were found in the loaded message.")] s)
    /\ (exists ev,
          save_selected_attachment sel dest_file s = (Ok tt, with_log [ev] s))
    /\ save_body_as_txt H io path s = (Ok tt, with_log [no_body_message] s)
    /\ open_html_in_browser io s = (Ok None, with_log [no_html_message] s).
Proof.
  intros H io fs dest dest_file path sel s.
  split; [reflexivity|]. split; [|split; reflexivity].
  destruct sel as [|idx rest]; [eexists; reflexivity|].
  unfold save_selected_attachment. cbn [attachments current_meta s initial_state
                                         empty_meta].
  destruct idx; eexists; reflexivity.
Qed.

(* ================================================================== *)
(** ** More about [_sanitize_filename] *)
(* ================================================================== *)

Lemma lstrip_all_space (t : str) :
  (forall c, In c t -> isspace c = true) -> lstrip t = [].
Proof.
  induction t as [|c t IH]; intros Hall; [reflexivity|].
  cbn [lstrip]. rewrite (Hall c (or_introl eq_refl)).
  apply IH. intros d Hd. apply Hall. now right.
Qed.

Lemma strip_fixed (t : str) :
  (forall c rest, t = c :: rest -> isspace c = false) ->
  (forall c front, t = front ++ [c] -> isspace c = false) ->
  strip t = t.
Proof.
  intros Hhead Hlast. unfold strip.
  rewrite (lstrip_fixed t) by (destruct t as [|c r]; [exact I | now apply (Hhead c r)]).
  unfold rstrip. rewrite lstrip_fixed; [apply rev_involutive|].
  destruct (rev t) as [|c r] eqn:Er; [exact I|].
  apply (Hlast c (rev r)). rewrite <- (rev_involutive t), Er. reflexivity.
Qed.

(** X26.  A name that is not empty, contains none of the nine forbidden
    characters and neither starts nor ends with whitespace is left
    unchanged by [_sanitize_filename]. *)
Theorem sanitize_filename_keeps_clean_names :
  forall name : str,
    name <> [] ->
    (forall c, In c name -> ~ In c forbidden) ->
    (forall c rest, name = c :: rest -> isspace c = false) ->
    (forall c front, name = front ++ [c] -> isspace c = false) ->
    _sanitize_filename name = name.
Proof.
  intros name Hne Hclean Hhead Hlast. apply sanitize_fixed.
  - exact Hne.
  - now apply strip_fixed.
  - intros c Hf Hc. exact (Hclean c Hc Hf).
Qed.

Lemma sanitize_filename_keeps_clean_names_witness :
  _sanitize_filename (lit "my report (v2).pdf") = lit "my report (v2).pdf".
Proof.
  apply sanitize_filename_keeps_clean_names.
  - discriminate.
  - intros c Hc Hf. vm_compute in Hc, Hf.
    repeat (destruct Hc as [<- | Hc];
            [repeat (destruct Hf as [Hf | Hf]; [discriminate Hf|]); exact Hf|]).
    exact Hc.
  - intros c rest E. injection E as <- _. reflexivity.
  - intros c front E.
    apply (f_equal (@rev codepoint)) in E. rewrite rev_app_distr in E.
    vm_compute in E. injection E as <- _. reflexivity.
Defined.

(** X27.  A name made only of whitespace and forbidden characters (the
    empty name included) is replaced by the word attachment. *)
Theorem sanitize_filename_blank_names :
  forall name : str,
    (forall c, In c name -> isspace c = true \/ In c forbidden) ->
    _sanitize_filename name = lit "attachment".
Proof.
  intros name Hall. unfold _sanitize_filename, strip.
  rewrite lstrip_all_space; [reflexivity|].
  intros c Hc. unfold drop_forbidden in Hc. apply filter_In in Hc.
  destruct Hc as [Hc Hn]. destruct (Hall c Hc) as [Hs | Hf]; [exact Hs|].
  apply char_in_In in Hf. rewrite Hf in Hn. discriminate.
Qed.

Lemma sanitize_filename_blank_names_witness :
  _sanitize_filename (lit " ?  * ") = lit "attachment".
Proof.
  apply sanitize_filename_blank_names.
  intros c Hc. vm_compute in Hc.
  repeat (destruct Hc as [<- | Hc];
          [first [left; reflexivity | right; vm_compute; tauto]|]).
  destruct Hc.
Defined.

(* ================================================================== *)
(** ** Opening, then saving *)
(* ================================================================== *)

Lemma save_loop_eml_meta (H : host) (dest : str) (l : list attachment) :
  forall k s r s1,
    save_loop H (Some eml) dest l k s = (r, s1) ->
    current_meta s1 = current_meta s.
Proof.
  induction l as [|a l IH]; intros k s r s1 E.
  - cbn in E. now injection E as _ <-.
  - cbn [save_loop] in E. unfold bind in E. rewrite save_one_eml_unfold in E.
    destruct (files s (eml_target H dest a k)) as [[b|]|];
      apply IH in E; exact E.
Qed.

(** X28.  Opening an [.eml] file and then saving all attachments to a
    directory where every target can be opened: neither action fails,
    the record loaded is the one parsed, the only message is the closing
    one, and it reports as many attachments saved as the message has. *)
Theorem open_then_extract_saves_all :
  forall (H : host) (path dest : str) (s : state)
         (hs : dict hval) (bt bh : str) (atts : list attachment),
    path <> [] -> extension H path <> lit ".msg" ->
    parse_eml H (files s) path = Ok (hs, bt, bh, atts) ->
    atts <> [] -> dest <> [] ->
    (forall a k, In a atts -> files s (eml_target H dest a k) <> Some NoAccess) ->
    exists s1 s2,
      open_email H path s = (Ok tt, s1)
      /\ extract_attachments H dest s1 = (Ok tt, s2)
      /\ current_meta s2 = meta_of (hs, bt, bh, atts) eml
      /\ log s2 = log s ++ [done_message (List.length atts) dest]
      /\ status (ui s2)
         = lit "Saved " ++ str_of_nat (List.length atts)
           ++ lit " attachment(s) to " ++ dest.
Proof.
  intros H path dest s hs bt bh atts Hp Hext Hparse Ha Hd Hopen.
  rewrite (open_email_other H path s Hp Hext), Hparse.
  destruct (load_parsed_fields H path (hs, bt, bh, atts) eml
              (with_path (Some path) s))
    as [s1 [E [Hm [_ [Hf [Hl _]]]]]].
  exists s1. rewrite E.
  assert (Hatts : attachments (current_meta s1) = atts) by (rewrite Hm; reflexivity).
  assert (Hty : type (current_meta s1) = Some eml) by (rewrite Hm; reflexivity).
  rewrite (extract_attachments_unfold H dest s1) by (rewrite ?Hatts; assumption).
  rewrite Hty, Hatts.
  destruct (save_loop_eml_all H dest atts 0 s1) as [s2 [El [Hl2 _]]].
  { intros a k Hin. rewrite Hf. cbn [files with_path]. now apply Hopen. }
  pose proof (save_loop_eml_meta H dest atts 0 s1 _ s2 El) as Hm2.
  rewrite El. cbn [Nat.add]. eexists. split; [reflexivity|].
  split; [reflexivity|].
  cbn [current_meta log ui status with_ui with_log set_status].
  rewrite Hm2, Hm, Hl2, Hl. cbn [log with_path].
  repeat split; reflexivity.
Qed.

Lemma open_then_extract_saves_all_witness :
  exists s1 s2,
    open_email (Posix.host_of Sample.with_logo None) Sample.mail
      (Sample.state_of empty_meta) = (Ok tt, s1)
    /\ extract_attachments (Posix.host_of Sample.with_logo None) Sample.out s1
       = (Ok tt, s2)
    /\ status (ui s2) = lit "Saved 2 attachment(s) to /out".
Proof.
  assert (Hext : extension (Posix.host_of Sample.with_logo None) Sample.mail
                 <> lit ".msg") by (vm_compute; discriminate).
  assert (Hparse :
            parse_eml (Posix.host_of Sample.with_logo None) Sample.disk Sample.mail
            = Ok ([], lit "hello", lit "<p>hello</p>",
                  map attachment_of_part [Sample.inline_logo; Sample.nameless]))
    by (vm_compute; reflexivity).
  destruct (open_then_extract_saves_all
              (Posix.host_of Sample.with_logo None) Sample.mail Sample.out
              (Sample.state_of empty_meta) _ _ _ _
              ltac:(discriminate) Hext Hparse ltac:(discriminate)
              ltac:(discriminate))
    as [s1 [s2 [E1 [E2 [_ [_ Hs]]]]]].
  - intros a k [<- | [<- | []]]; vm_compute; discriminate.
  - exists s1, s2. split; [exact E1|]. split; [exact E2|].
    rewrite Hs. vm_compute. reflexivity.
Defined.

(* ================================================================== *)
(** ** More about the [save] of a [.msg] attachment *)
(* ================================================================== *)

Lemma save_with_method_other_error (sm : save_method) (o : option att_handle)
    (p : str) (s s1 : state) (e : exn) :
  call_save (save_customPath sm) p s = (Raise e, s1) ->
  is_TypeError e = false ->
  save_with_method sm o p s = (Raise e, s1).
Proof.
  intros E Ht. rewrite save_with_method_unfold, E, Ht. reflexivity.
Qed.

Lemma save_with_method_retry_failed (sm : save_method) (o : option att_handle)
    (p : str) (s s1 s2 : state) (e1 e2 : exn) :
  call_save (save_customPath sm) p s = (Raise e1, s1) ->
  is_TypeError e1 = true ->
  call_save (save_positional sm) p s1 = (Raise e2, s2) ->
  save_with_method sm o p s
  = match raw_buffer o with
    | Some data => open_wb_write p data s2
    | None => (Raise e2, s2)
    end.
Proof.
  intros E1 Ht E2. rewrite save_with_method_unfold, E1, Ht, E2. reflexivity.
Qed.

(** X29.  When the keyword form of [save] raises anything other than a
    TypeError, nothing else is tried: neither the positional form nor
    the raw buffer, even if the handle has one.  The loop reports that
    exception as a save error and does not count the attachment; saving
    the selected attachment raises it. *)
Theorem msg_save_error_is_not_retried :
  forall (H : host) (dest : str) (a : attachment) (saved : nat)
         (name dest_file : str) (sm : save_method) (e : exn) (s : state),
    msg_fname a = Some name ->
    has_save (obj a) = Some sm ->
    is_TypeError e = false ->
    (forall s1,
        call_save (save_customPath sm) (msg_target H dest name) s = (Raise e, s1) ->
        save_one H (Some msg) dest a saved s
        = (Ok saved, with_log (log s1 ++ save_failed e) s1))
    /\ (forall s1,
          call_save (save_customPath sm) dest_file s = (Raise e, s1) ->
          save_selected_body (Some msg) a dest_file s = (Raise e, s1)).
Proof.
  intros H dest a saved name dest_file sm e s Hname Hsm Ht. split.
  - intros s1 E.
    rewrite save_one_of_body, (save_one_msg_unfold H dest a saved name s Hname).
    rewrite Hsm. fold (msg_target H dest name).
    rewrite (save_with_method_other_error sm (obj a) _ s s1 e E Ht). reflexivity.
  - intros s1 E. unfold save_selected_body, bind. rewrite Hsm.
    rewrite (save_with_method_other_error sm (obj a) _ s s1 e E Ht). reflexivity.
Qed.

Lemma msg_save_error_is_not_retried_witness :
  save_one (Posix.host_of Sample.with_logo None) (Some msg) Sample.out
    (Sample.msg_att "k"
       (Sample.handle (Some {| save_customPath := Sample.refuses OSError;
                               save_positional := Sample.writes Sample.png |})
          (Val Sample.png))) 0 (Sample.state_of (Sample.msg_meta []))
  = (Ok 0,
     with_log (save_failed (Exn OSError (lit "refused")))
       (Sample.state_of (Sample.msg_meta []))).
Proof.
  exact (proj1 (msg_save_error_is_not_retried
                  (Posix.host_of Sample.with_logo None) Sample.out
                  (Sample.msg_att "k"
                     (Sample.handle
                        (Some {| save_customPath := Sample.refuses OSError;
                                 save_positional := Sample.writes Sample.png |})
                        (Val Sample.png))) 0 (lit "k") (lit "/out/k")
                  {| save_customPath := Sample.refuses OSError;
                     save_positional := Sample.writes Sample.png |}
                  (Exn OSError (lit "refused"))
                  (Sample.state_of (Sample.msg_meta []))
                  eq_refl eq_refl eq_refl) _ eq_refl).
Defined.

(** X30.  When the keyword form raises a TypeError and the positional
    form raises as well, the raw buffer is the last resort: if the handle
    has one and the path can be opened it is written and the attachment
    counts as saved; if it has none, the exception reported is that of
    the positional call, not the TypeError. *)
Theorem msg_save_retry_falls_back_to_buffer :
  forall (H : host) (dest : str) (a : attachment) (saved : nat)
         (name : str) (sm : save_method) (e1 e2 : exn) (s s1 s2 : state),
    msg_fname a = Some name ->
    has_save (obj a) = Some sm ->
    call_save (save_customPath sm) (msg_target H dest name) s = (Raise e1, s1) ->
    is_TypeError e1 = true ->
    call_save (save_positional sm) (msg_target H dest name) s1 = (Raise e2, s2) ->
    (forall data,
        raw_buffer (obj a) = Some data ->
        files s2 (msg_target H dest name) <> Some NoAccess ->
        save_one H (Some msg) dest a saved s
        = (Ok (S saved),
           with_files (fs_put (msg_target H dest name) (File data) (files s2)) s2))
    /\ (raw_buffer (obj a) = None ->
        save_one H (Some msg) dest a saved s
        = (Ok saved, with_log (log s2 ++ save_failed e2) s2)).
Proof.
  intros H dest a saved name sm e1 e2 s s1 s2 Hname Hsm E1 Ht E2.
  assert (Hone : save_one H (Some msg) dest a saved s
                 = match (match raw_buffer (obj a) with
                          | Some data => open_wb_write (msg_target H dest name) data s2
                          | None => (Raise e2, s2)
                          end) with
                   | (Ok _, s3) => (Ok (S saved), s3)
                   | (Raise e, s3) =>
                       (Ok saved, with_log (log s3 ++ save_failed e) s3)
                   end).
  { rewrite save_one_of_body, (save_one_msg_unfold H dest a saved name s Hname).
    rewrite Hsm. fold (msg_target H dest name).
    rewrite (save_with_method_retry_failed sm (obj a) _ s s1 s2 e1 e2 E1 Ht E2).
    destruct (raw_buffer (obj a)) as [data|]; [|reflexivity].
    destruct (open_wb_write (msg_target H dest name) data s2) as [[u|e] s3];
      reflexivity. }
  split.
  - intros data Hraw Hopen. rewrite Hone, Hraw.
    destruct (open_wb_write_cases (msg_target H dest name) data s2)
      as [[Hno _] | [_ ->]]; [contradiction | reflexivity].
  - intros Hraw. rewrite Hone, Hraw. reflexivity.
Qed.

Lemma msg_save_retry_falls_back_to_buffer_witness :
  save_one (Posix.host_of Sample.with_logo None) (Some msg) Sample.out
    (Sample.msg_att "k"
       (Sample.handle (Some {| save_customPath := Sample.refuses TypeError;
                               save_positional := Sample.refuses OSError |})
          (Val Sample.png))) 0 (Sample.state_of (Sample.msg_meta []))
  = (Ok 1,
     with_files (fs_put (lit "/out/k") (File Sample.png) Sample.disk)
       (Sample.state_of (Sample.msg_meta []))).
Proof.
  refine (proj1 (msg_save_retry_falls_back_to_buffer
                   (Posix.host_of Sample.with_logo None) Sample.out
                   (Sample.msg_att "k"
                      (Sample.handle
                         (Some {| save_customPath := Sample.refuses TypeError;
                                  save_positional := Sample.refuses OSError |})
                         (Val Sample.png))) 0 (lit "k")
                   {| save_customPath := Sample.refuses TypeError;
                      save_positional := Sample.refuses OSError |}
                   (Exn TypeError (lit "refused")) (Exn OSError (lit "refused"))
                   (Sample.state_of (Sample.msg_meta []))
                   (Sample.state_of (Sample.msg_meta []))
                   (Sample.state_of (Sample.msg_meta []))
                   eq_refl eq_refl eq_refl eq_refl eq_refl) Sample.png eq_refl _).
  vm_compute. discriminate.
Defined.

(* ================================================================== *)
(** ** Saving all attachments: what is counted *)
(* ================================================================== *)


